(** * sonder-ui: combobox keyboard navigation and option filtering

    A shallow embedding of the two combobox widgets of
    [src/components/combo-eleven/combo-eleven.tsx] ([ComboEleven] and
    [SuiCombobox]) and of the three helpers they import from
    [shared/utils] ([filterOptions], [getActionFromKey], [getUpdatedIndex]).

    JavaScript numbers that hold indices are integers and are modelled by
    [Z]; strings are [string]; arrays are [list]; a statement that throws
    makes the handler return [TypeError s], where [s] is the widget as the
    throw leaves it. *)

From Stdlib Require Import ZArith Bool Ascii String.
From stdpp Require Import base list strings.

Local Open Scope string_scope.
Local Open Scope list_scope.

(** ** Data model *)

(** [SelectOption] of [shared/interfaces]: the widgets read [option.name]
    only; [value] is carried along untouched. *)
Record SelectOption : Type := mkOption { name : string; value : string }.

Global Instance SelectOption_eq_dec : EqDecision SelectOption.
Proof. solve_decision. Defined.

(** [MenuActions]: the symbolic navigation actions.  [NoAction] stands for
    the value the classifier returns for a key it does not recognise. *)
Inductive MenuActions : Type :=
  | First | Last | Next | Previous | Open | Close | CloseSelect | NoAction.

Global Instance MenuActions_eq_dec : EqDecision MenuActions.
Proof. solve_decision. Defined.

(** Outcome of a handler over a widget state [S]: it either completes with
    a value, or throws and leaves the widget in the state reached so far. *)
Inductive Result (S A : Type) : Type :=
  | Ok (a : A)
  | TypeError (thrown_in : S).
Arguments Ok {S A} a.
Arguments TypeError {S A} thrown_in.

(** [arr[index]] for an integer-valued number: [None] is [undefined]. *)
Definition array_get {A} (arr : list A) (index : Z) : option A :=
  if (index <? 0)%Z then None else arr !! Z.to_nat index.

(** [arr.length] as a JavaScript number. *)
Definition array_length {A} (arr : list A) : Z := Z.of_nat (length arr).

(** ** String helpers *)

(** Lower-casing: the letters [A]..[Z] are mapped to [a]..[z], every other
    byte is kept. *)
Definition lower_ascii (c : ascii) : ascii :=
  let n := nat_of_ascii c in
  if (65 <=? n)%nat && (n <=? 90)%nat then ascii_of_nat (n + 32) else c.

Fixpoint toLowerCase (s : string) : string :=
  match s with
  | EmptyString => EmptyString
  | String c s' => String (lower_ascii c) (toLowerCase s')
  end.

(** [startsWith p s]: [p] is a prefix of [s]. *)
Fixpoint startsWith (p s : string) : bool :=
  match p, s with
  | EmptyString, _ => true
  | String _ _, EmptyString => false
  | String a p', String b s' => if decide (a = b) then startsWith p' s' else false
  end.

(** [includes s q]: [q] occurs in [s] at some offset. *)
Fixpoint includes (s q : string) : bool :=
  startsWith q s ||
  match s with
  | EmptyString => false
  | String _ s' => includes s' q
  end.

(** Case-insensitive containment, stated without reference to the search. *)
Definition ci_contains (label query : string) : Prop :=
  ∃ pre post, toLowerCase label = pre +:+ toLowerCase query +:+ post.

(** ** The helpers of [shared/utils] *)

Module Utils.

(** Modelled from the spec: [filterOptions] of [shared/utils] is not part of
    the sources at hand.  Spec 4.1: returns every option whose label,
    compared case-insensitively, contains [query] as a substring, in the
    original order. *)
Definition filterOptions (options : list SelectOption) (query : string)
  : list SelectOption :=
  List.filter (fun o => includes (toLowerCase (name o)) (toLowerCase query))
    options.

(** Modelled from the spec: [getActionFromKey] of [shared/utils] is not part
    of the sources at hand.  Spec 4.2 gives the table. *)
Definition getActionFromKey (key : string) (menuOpen : bool) : MenuActions :=
  if decide (key = "ArrowDown") then (if menuOpen then Next else Open)
  else if decide (key = "ArrowUp") then (if menuOpen then Previous else Open)
  else if decide (key = "Home") then First
  else if decide (key = "End") then Last
  else if decide (key = "Enter") then (if menuOpen then CloseSelect else NoAction)
  else if decide (key = "Escape") then (if menuOpen then Close else NoAction)
  else NoAction.

(** Modelled from the spec: [getUpdatedIndex] of [shared/utils] is not part
    of the sources at hand.  Spec 4.3: First gives 0, Last gives [max], Next
    gives [current + 1] clamped to [max], Previous gives [current - 1]
    clamped to 0, every other action leaves the index unchanged; for an
    empty list ([max < 0]) the result is 0 by convention. *)
Definition getUpdatedIndex (current max : Z) (action : MenuActions) : Z :=
  if (max <? 0)%Z then 0%Z
  else match action with
       | First => 0%Z
       | Last => max
       | Next => Z.min (current + 1) max
       | Previous => Z.max (current - 1) 0
       | _ => current
       end.

End Utils.

(** The key identifiers the classifier recognises. *)
Definition recognised_keys : list string :=
  ["ArrowDown"; "ArrowUp"; "Home"; "End"; "Enter"; "Escape"].

(** ** Handlers that may throw *)

Global Instance Result_ret {S} : MRet (Result S) := fun _ a => Ok a.
Global Instance Result_bind {S} : MBind (Result S) := fun _ _ f r =>
  match r with
  | Ok a => f a
  | TypeError s => TypeError s
  end.

(** What a handler does to the outside world, in program order:
    [selectEvent.emit(selected)], [inputRef.focus()] and
    [event.preventDefault()]. *)
Inductive Effect : Type :=
  | EmitSelect (detail : SelectOption)
  | Focus
  | PreventDefault.

(** [arr.indexOf(x)]: the first position holding [x], or -1. *)
Definition indexOf {A} `{EqDecision A} (arr : list A) (x : A) : Z :=
  match list_find (fun y => y = x) arr with
  | Some (i, _) => Z.of_nat i
  | None => (-1)%Z
  end.

(** The state a handler leaves behind, whether it completed or threw: an
    exception thrown by an event handler does not stop the page, and the
    next event finds the widget as the throw left it. *)
Definition after {S} (r : Result S S) : S :=
  match r with
  | Ok s => s
  | TypeError s => s
  end.

(** The option carried by the most recent [select] event of a trace. *)
Definition lastSelect (t : list Effect) : option SelectOption :=
  fold_left (fun acc e => match e with
                          | EmitSelect detail => Some detail
                          | _ => acc
                          end) t None.

(** ** The [combo-eleven] widget *)

Module ComboEleven.
Import Utils.

Record State : Type := mkState {
  options : list SelectOption;          (* @Prop options *)
  activeIndex : Z;                      (* @State activeIndex *)
  filteredOptions : list SelectOption;  (* @State filteredOptions *)
  open : bool;                          (* @State open *)
  selectedIndex : option Z;             (* @State selectedIndex; None is null/undefined *)
  value : string;                       (* @State value *)
  ignoreBlur : bool;                    (* private ignoreBlur *)
  trace : list Effect                   (* effects performed so far, oldest first *)
}.

Definition set_options v s :=
  mkState v (activeIndex s) (filteredOptions s) (open s) (selectedIndex s)
    (value s) (ignoreBlur s) (trace s).
Definition set_activeIndex v s :=
  mkState (options s) v (filteredOptions s) (open s) (selectedIndex s)
    (value s) (ignoreBlur s) (trace s).
Definition set_filteredOptions v s :=
  mkState (options s) (activeIndex s) v (open s) (selectedIndex s)
    (value s) (ignoreBlur s) (trace s).
Definition set_open v s :=
  mkState (options s) (activeIndex s) (filteredOptions s) v (selectedIndex s)
    (value s) (ignoreBlur s) (trace s).
Definition set_selectedIndex v s :=
  mkState (options s) (activeIndex s) (filteredOptions s) (open s) v
    (value s) (ignoreBlur s) (trace s).
Definition set_value v s :=
  mkState (options s) (activeIndex s) (filteredOptions s) (open s)
    (selectedIndex s) v (ignoreBlur s) (trace s).
Definition set_ignoreBlur v s :=
  mkState (options s) (activeIndex s) (filteredOptions s) (open s)
    (selectedIndex s) (value s) v (trace s).
Definition perform (e : Effect) s :=
  mkState (options s) (activeIndex s) (filteredOptions s) (open s)
    (selectedIndex s) (value s) (ignoreBlur s) (trace s ++ [e]).

(** The field initialisers followed by [componentDidLoad]. *)
Definition componentDidLoad (opts : list SelectOption) : State :=
  mkState opts 0 (filterOptions opts EmptyString) false None EmptyString false [].

(** [@Watch('options')]: the property has its new value when the watcher
    runs. *)
Definition watchOptions (newValue : list SelectOption) (s : State) : State :=
  set_filteredOptions (filterOptions newValue (value s)) (set_options newValue s).

Definition updateMenuState (open' callFocus : bool) (s : State) : State :=
  let s := set_open open' s in
  if callFocus then perform Focus s else s.

(** [curValue] is [this.inputRef.value], the text now in the input. *)
Definition onInput (curValue : string) (s : State) : State :=
  let s := set_filteredOptions (filterOptions (options s) curValue) s in
  let s :=
    if decide (value s ≠ curValue)
    then set_selectedIndex None (set_activeIndex 0 (set_value curValue s))
    else s in
  let menuState := (0 <? array_length (filteredOptions s))%Z in
  if negb (eqb (open s) menuState) then updateMenuState menuState false s
  else s.

Definition onOptionChange (index : Z) (s : State) : State :=
  set_activeIndex index s.

(** [selected.name] throws when [filteredOptions[index]] is [undefined]. *)
Definition selectOption (index : Z) (s : State) : Result State State :=
  match array_get (filteredOptions s) index with
  | None => TypeError s
  | Some selected =>
      let s := set_value (name selected) s in
      let s := set_filteredOptions (filterOptions (options s) (value s)) s in
      let s := set_activeIndex 0 s in
      let s := set_selectedIndex (Some 0%Z) s in
      Ok (perform (EmitSelect selected) s)
  end.

(** The [CloseSelect] case has no [return]: it runs on into [Close]. *)
Definition onInputKeyDown (key : string) (s : State) : Result State State :=
  let max := (array_length (filteredOptions s) - 1)%Z in
  let action := getActionFromKey key (open s) in
  match action with
  | Next | Last | First | Previous =>
      let s := perform PreventDefault s in
      Ok (onOptionChange (getUpdatedIndex (activeIndex s) max action) s)
  | CloseSelect =>
      let s := perform PreventDefault s in
      s ← selectOption (activeIndex s) s;
      Ok (updateMenuState false true s)
  | Close => Ok (updateMenuState false true s)
  | Open => Ok (updateMenuState true true s)
  | NoAction => Ok s
  end.

Definition onInputBlur (s : State) : State :=
  if ignoreBlur s then set_ignoreBlur false s
  else updateMenuState false false s.

Definition onOptionClick (index : Z) (s : State) : Result State State :=
  let s := onOptionChange index s in
  s ← selectOption index s;
  Ok (updateMenuState false true s).

Definition onOptionMouseDown (s : State) : State := set_ignoreBlur true s.

(** The events the rendered elements are bound to, and the change of the
    [options] property.  [run] feeds a sequence of events to the widget and
    stops at the first handler that throws. *)
Inductive Event : Type :=
  | InputBlur
  | InputClick
  | Input (curValue : string)
  | KeyDown (key : string)
  | OptionClick (index : Z)
  | OptionMouseDown
  | OptionsChanged (newValue : list SelectOption).

Definition handle (e : Event) (s : State) : Result State State :=
  match e with
  | InputBlur => Ok (onInputBlur s)
  | InputClick => Ok (updateMenuState true true s)
  | Input curValue => Ok (onInput curValue s)
  | KeyDown key => onInputKeyDown key s
  | OptionClick index => onOptionClick index s
  | OptionMouseDown => Ok (onOptionMouseDown s)
  | OptionsChanged newValue => Ok (watchOptions newValue s)
  end.

Fixpoint run (es : list Event) (s : State) : Result State State :=
  match es with
  | [] => Ok s
  | e :: es' => s' ← handle e s; run es' s'
  end.

(** *** The menu state machine

    The action a key press resolves to, and the two transition tables: the
    one the specification gives (Closed to Open on the Open action or on
    input leaving a non-empty filtered list; Open to Closed on Close,
    CloseSelect or loss of focus) and the one the handlers implement. *)
Definition keyAction (e : Event) (s : State) : option MenuActions :=
  match e with
  | KeyDown key => Some (getActionFromKey key (open s))
  | _ => None
  end.

Definition isInput (e : Event) : Prop :=
  match e with
  | Input _ => True
  | _ => False
  end.

Definition opens_per_spec (e : Event) (s s' : State) : Prop :=
  keyAction e s = Some Open ∨ (isInput e ∧ filteredOptions s' ≠ []).

Definition closes_per_spec (e : Event) (s : State) : Prop :=
  keyAction e s = Some Close ∨ keyAction e s = Some CloseSelect ∨ e = InputBlur.

Definition opens_menu (e : Event) (s s' : State) : Prop :=
  opens_per_spec e s s' ∨ e = InputClick.

Definition closes_menu (e : Event) (s s' : State) : Prop :=
  closes_per_spec e s ∨ (∃ index, e = OptionClick index)
  ∨ (isInput e ∧ filteredOptions s' = []).

(** A key press that resolves to none of Open, Close and CloseSelect. *)
Definition keepsMenu (e : Event) (s : State) : Prop :=
  ∃ action, keyAction e s = Some action
            ∧ action ≠ Open ∧ action ≠ Close ∧ action ≠ CloseSelect.

(** *** Reachable states

    An option can only be clicked while it is rendered, that is while its
    index designates an option of the filtered list.  [reaches allowed s0 s]:
    the widget gets from [s0] to [s] by events that are [allowed]. *)
Definition rendered (e : Event) (s : State) : Prop :=
  match e with
  | OptionClick index => is_Some (array_get (filteredOptions s) index)
  | _ => True
  end.

Definition anyEvent (e : Event) : Prop := True.

Definition fixedOptions (e : Event) : Prop :=
  match e with
  | OptionsChanged _ => False
  | _ => True
  end.

Inductive reaches (allowed : Event → Prop) (s0 : State) : State → Prop :=
  | reaches_here : reaches allowed s0 s0
  | reaches_step s e :
      reaches allowed s0 s → allowed e → rendered e s →
      reaches allowed s0 (after (handle e s)).

(** The active index is 0 or designates an option of the filtered list. *)
Definition activeInRange (s : State) : Prop :=
  (0 ≤ activeIndex s)%Z
  ∧ (activeIndex s ≤ Z.max 0 (array_length (filteredOptions s) - 1))%Z.

End ComboEleven.

(** ** The [sui-combobox] widget *)

Module SuiCombobox.
Import Utils.

Record State : Type := mkState {
  filter : bool;                        (* @Prop filter *)
  options : list SelectOption;          (* @Prop options, set to an array *)
  activeIndex : Z;                      (* @State activeIndex *)
  filteredOptions : list SelectOption;  (* @State filteredOptions *)
  open : bool;                          (* @State open *)
  value : string;                       (* @State value *)
  ignoreBlur : bool;                    (* private ignoreBlur *)
  selectedValue : string;               (* private selectedValue *)
  trace : list Effect                   (* effects performed so far, oldest first *)
}.

Definition set_options v s :=
  mkState (filter s) v (activeIndex s) (filteredOptions s) (open s) (value s)
    (ignoreBlur s) (selectedValue s) (trace s).
Definition set_activeIndex v s :=
  mkState (filter s) (options s) v (filteredOptions s) (open s) (value s)
    (ignoreBlur s) (selectedValue s) (trace s).
Definition set_filteredOptions v s :=
  mkState (filter s) (options s) (activeIndex s) v (open s) (value s)
    (ignoreBlur s) (selectedValue s) (trace s).
Definition set_open v s :=
  mkState (filter s) (options s) (activeIndex s) (filteredOptions s) v (value s)
    (ignoreBlur s) (selectedValue s) (trace s).
Definition set_value v s :=
  mkState (filter s) (options s) (activeIndex s) (filteredOptions s) (open s) v
    (ignoreBlur s) (selectedValue s) (trace s).
Definition set_ignoreBlur v s :=
  mkState (filter s) (options s) (activeIndex s) (filteredOptions s) (open s)
    (value s) v (selectedValue s) (trace s).
Definition set_selectedValue v s :=
  mkState (filter s) (options s) (activeIndex s) (filteredOptions s) (open s)
    (value s) (ignoreBlur s) v (trace s).
Definition perform (e : Effect) s :=
  mkState (filter s) (options s) (activeIndex s) (filteredOptions s) (open s)
    (value s) (ignoreBlur s) (selectedValue s) (trace s ++ [e]).

(** The field initialisers followed by [componentDidLoad]; [value0] is the
    [value] field before loading, [None] when it is not a string.  [opts]
    is the [options] property, taken as set to an array: the local default
    [options = []] of the source is not stored back, and a widget whose
    property is unset is not covered by this state type. *)
Definition componentDidLoad (filter0 : bool) (opts : list SelectOption)
    (value0 : option string) : State :=
  let value' := default EmptyString value0 in
  let filtered := if filter0 then filterOptions opts value' else opts in
  let value'' :=
    match value0 with
    | Some _ => value'
    | None => match filtered with
              | o :: _ => name o
              | [] => EmptyString
              end
    end in
  mkState filter0 opts 0 filtered false value'' false EmptyString [].

Definition watchOptions (newValue : list SelectOption) (s : State) : State :=
  let s := set_options newValue s in
  if filter s then set_filteredOptions (filterOptions newValue (value s)) s
  else s.

Definition updateMenuState (open' callFocus : bool) (s : State) : State :=
  let s := set_open open' s in
  if callFocus then perform Focus s else s.

(** The callback of [matches.filter] reads [this.options[this.activeIndex].name]
    once per element of [matches]: it throws when that option is [undefined]
    and [matches] is not empty. *)
Definition filterCurrentOption (matches : list SelectOption) (s : State)
  : Result State (list SelectOption) :=
  match matches with
  | [] => Ok []
  | _ :: _ =>
      match array_get (options s) (activeIndex s) with
      | None => TypeError s
      | Some current =>
          Ok (List.filter (fun o => bool_decide (name o = name current)) matches)
      end
  end.

Definition onInput (curValue : string) (s : State) : Result State State :=
  let matches := filterOptions (options s) curValue in
  s ← (if filter s
       then Ok (set_activeIndex 0 (set_filteredOptions matches s))
       else
         current ← filterCurrentOption matches s;
         match matches, current with
         | m0 :: _, [] => Ok (set_activeIndex (indexOf (options s) m0) s)
         | _, _ => Ok s
         end);
  let s := if decide (value s ≠ curValue) then set_value curValue s else s in
  let menuState := (0 <? array_length (filteredOptions s))%Z in
  Ok (if negb (eqb (open s) menuState) then updateMenuState menuState false s
      else s).

Definition onOptionChange (index : Z) (s : State) : State :=
  set_activeIndex index s.

(** [selected.name] throws when [filteredOptions[index]] is [undefined]. *)
Definition selectOption (index : Z) (s : State) : Result State State :=
  match array_get (filteredOptions s) index with
  | None => TypeError s
  | Some selected =>
      let s := set_value (name selected) s in
      let s := set_selectedValue (name selected) s in
      let s := set_activeIndex 0 s in
      let s :=
        if filter s
        then set_filteredOptions (filterOptions (options s) (value s)) s
        else s in
      Ok (perform (EmitSelect selected) s)
  end.

(** The handler passes the keyboard event to the classifier; [key] is the
    event's key identifier. *)
Definition onInputKeyDown (key : string) (s : State) : Result State State :=
  let max := (array_length (filteredOptions s) - 1)%Z in
  let action := getActionFromKey key (open s) in
  match action with
  | Next | Last | First | Previous =>
      let s := perform PreventDefault s in
      Ok (onOptionChange (getUpdatedIndex (activeIndex s) max action) s)
  | CloseSelect =>
      let s := perform PreventDefault s in
      s ← selectOption (activeIndex s) s;
      Ok (updateMenuState false true s)
  | Close =>
      let s := perform PreventDefault s in
      let s := set_activeIndex 0 s in
      let s := set_value (selectedValue s) s in
      let s := set_filteredOptions (options s) s in
      Ok (updateMenuState false true s)
  | Open => Ok (updateMenuState true true s)
  | NoAction => Ok s
  end.

Definition onInputBlur (s : State) : Result State State :=
  if ignoreBlur s then Ok (set_ignoreBlur false s)
  else if open s then
    s ← selectOption (activeIndex s) s;
    Ok (updateMenuState false false s)
  else Ok s.

Definition onOptionClick (index : Z) (s : State) : Result State State :=
  let s := onOptionChange index s in
  s ← selectOption index s;
  Ok (updateMenuState false true s).

Definition onOptionMouseDown (s : State) : State := set_ignoreBlur true s.

Inductive Event : Type :=
  | InputBlur
  | InputClick
  | Input (curValue : string)
  | KeyDown (key : string)
  | OptionClick (index : Z)
  | OptionMouseDown
  | OptionsChanged (newValue : list SelectOption).

Definition handle (e : Event) (s : State) : Result State State :=
  match e with
  | InputBlur => onInputBlur s
  | InputClick => Ok (updateMenuState true true s)
  | Input curValue => onInput curValue s
  | KeyDown key => onInputKeyDown key s
  | OptionClick index => onOptionClick index s
  | OptionMouseDown => Ok (onOptionMouseDown s)
  | OptionsChanged newValue => Ok (watchOptions newValue s)
  end.

Fixpoint run (es : list Event) (s : State) : Result State State :=
  match es with
  | [] => Ok s
  | e :: es' => s' ← handle e s; run es' s'
  end.

(** *** The menu state machine

    The action a key press resolves to, and the two transition tables: the
    one the specification gives (Closed to Open on the Open action or on
    input leaving a non-empty filtered list; Open to Closed on Close,
    CloseSelect or loss of focus) and the one the handlers implement. *)
Definition keyAction (e : Event) (s : State) : option MenuActions :=
  match e with
  | KeyDown key => Some (getActionFromKey key (open s))
  | _ => None
  end.

Definition isInput (e : Event) : Prop :=
  match e with
  | Input _ => True
  | _ => False
  end.

Definition opens_per_spec (e : Event) (s s' : State) : Prop :=
  keyAction e s = Some Open ∨ (isInput e ∧ filteredOptions s' ≠ []).

Definition closes_per_spec (e : Event) (s : State) : Prop :=
  keyAction e s = Some Close ∨ keyAction e s = Some CloseSelect ∨ e = InputBlur.

Definition opens_menu (e : Event) (s s' : State) : Prop :=
  opens_per_spec e s s' ∨ e = InputClick.

Definition closes_menu (e : Event) (s s' : State) : Prop :=
  closes_per_spec e s ∨ (∃ index, e = OptionClick index)
  ∨ (isInput e ∧ filteredOptions s' = []).

(** A key press that resolves to none of Open, Close and CloseSelect. *)
Definition keepsMenu (e : Event) (s : State) : Prop :=
  ∃ action, keyAction e s = Some action
            ∧ action ≠ Open ∧ action ≠ Close ∧ action ≠ CloseSelect.

(** *** Reachable states

    An option can only be clicked while it is rendered, that is while its
    index designates an option of the filtered list.  [reaches allowed s0 s]:
    the widget gets from [s0] to [s] by events that are [allowed]. *)
Definition rendered (e : Event) (s : State) : Prop :=
  match e with
  | OptionClick index => is_Some (array_get (filteredOptions s) index)
  | _ => True
  end.

Definition anyEvent (e : Event) : Prop := True.

Definition fixedOptions (e : Event) : Prop :=
  match e with
  | OptionsChanged _ => False
  | _ => True
  end.

Inductive reaches (allowed : Event → Prop) (s0 : State) : State → Prop :=
  | reaches_here : reaches allowed s0 s0
  | reaches_step s e :
      reaches allowed s0 s → allowed e → rendered e s →
      reaches allowed s0 (after (handle e s)).

(** The active index is 0 or designates an option of the filtered list. *)
Definition activeInRange (s : State) : Prop :=
  (0 ≤ activeIndex s)%Z
  ∧ (activeIndex s ≤ Z.max 0 (array_length (filteredOptions s) - 1))%Z.

End SuiCombobox.

(** ** The form page

    The inline script of the purchase form page: [onSubmit] is the callback
    the form helper calls with the outcome of validation.  The page state is
    what the script touches: the markup of [.form-content] and the class
    tokens, markup and focus of [.form-alert]. *)

Module FormPage.

Record Page : Type := mkPage {
  formContent : string;       (* innerHTML of .form-content *)
  alertClasses : list string; (* formAlert.classList *)
  alertHTML : string;         (* formAlert.innerHTML *)
  alertFocused : bool         (* formAlert.focus() was called *)
}.

(** [classList.add(token)]: a token already present is not added again. *)
Definition classList_add (token : string) (tokens : list string) : list string :=
  if decide (token ∈ tokens) then tokens else tokens ++ [token].

(** [classList.remove(token)]. *)
Definition classList_remove (token : string) (tokens : list string)
  : list string :=
  List.filter (fun t => negb (bool_decide (t = token))) tokens.

(** [arr.pop()]: the last element ([None] is [undefined]) and the array
    without it. *)
Fixpoint pop {A} (arr : list A) : option A * list A :=
  match arr with
  | [] => (None, [])
  | x :: rest =>
      match rest with
      | [] => (Some x, [])
      | _ :: _ => let (lastElement, front) := pop rest in (lastElement, x :: front)
      end
  end.

(** ['...' + lastField]: [undefined] is converted to the string "undefined". *)
Definition to_string (v : option string) : string :=
  match v with
  | Some text => text
  | None => "undefined"
  end.

(** The text of the error alert, from the labels [getErrorFields] returns. *)
Definition errorMessage (errorFieldNames : list string) : string :=
  let (lastField, errorFields) := pop errorFieldNames in
  if (0 <? length errorFields)%nat
  then "Please fix errors in " +:+ String.concat ", " errorFields
       +:+ " and " +:+ to_string lastField
  else "Please fix " +:+ to_string lastField.

(** [errorFieldNames] is what [getErrorFields()] reads from the document. *)
Definition onSubmit (formValid : bool) (errorFieldNames : list string)
    (page : Page) : Page :=
  if formValid then
    mkPage EmptyString
      (classList_add "success" (classList_remove "error" (alertClasses page)))
      "Success!" true
  else
    mkPage (formContent page)
      (classList_add "error" (alertClasses page))
      (errorMessage errorFieldNames) true.

End FormPage.

(** ** Sample data

    The option list of the specification's filtering example, and widget
    states reached from a freshly loaded widget. *)
Definition states : list SelectOption :=
  [mkOption "Alaska" "AK"; mkOption "Arizona" "AZ"; mkOption "Texas" "TX"].

(** [combo-eleven] after loading, and after typing "a" (menu open). *)
Definition combo_loaded : ComboEleven.State :=
  ComboEleven.componentDidLoad states.
Definition combo_typed_a : ComboEleven.State :=
  ComboEleven.onInput "a" combo_loaded.

(** [sui-combobox] with filtering, after loading. *)
Definition sui_loaded : SuiCombobox.State :=
  SuiCombobox.componentDidLoad true states None.

(** [sui-combobox] with filtering after "Texas" was clicked and "Al" typed:
    the menu is open on the single match "Alaska". *)
Definition sui_typed_al : SuiCombobox.State :=
  SuiCombobox.mkState true states 0 [mkOption "Alaska" "AK"] true "Al" false
    "Texas" [EmitSelect (mkOption "Texas" "TX"); Focus].

(** * Properties *)

(** ** Substring search *)

Lemma startsWith_spec (p s : string) :
  startsWith p s = true ↔ ∃ post, s = p +:+ post.
Proof.
  revert s; induction p as [|a p IH]; intros s; simpl.
  - split; [intros _; by exists s | done].
  - destruct s as [|b s].
    + split; [done | intros [post Hpost]; discriminate Hpost].
    + destruct (decide (a = b)) as [->|Hab].
      * rewrite IH. split; intros [post Hpost]; exists post.
        -- by rewrite Hpost.
        -- by injection Hpost.
      * split; [done | intros [post Hpost]]. injection Hpost as Hba _.
        by destruct Hab.
Qed.

Lemma includes_intro (pre q post : string) :
  includes (pre +:+ q +:+ post) q = true.
Proof.
  induction pre as [|c pre IH]; simpl.
  - assert (startsWith q (q +:+ post) = true) as Hq
      by (apply startsWith_spec; by exists post).
    destruct (q +:+ post); simpl; rewrite Hq; done.
  - rewrite IH. apply orb_true_r.
Qed.

Lemma includes_spec (s q : string) :
  includes s q = true ↔ ∃ pre post, s = pre +:+ q +:+ post.
Proof.
  split.
  - induction s as [|c s IH]; simpl; rewrite orb_true_iff.
    + intros [Hp|Hf]; [|done].
      apply startsWith_spec in Hp as [post Hpost]. by exists EmptyString, post.
    + intros [Hp|Hs].
      * apply startsWith_spec in Hp as [post Hpost]. by exists EmptyString, post.
      * destruct (IH Hs) as (pre & post & ->). by exists (String c pre), post.
  - intros (pre & post & ->). apply includes_intro.
Qed.

Lemma includes_empty (s : string) : includes s EmptyString = true.
Proof. apply includes_spec. by exists EmptyString, s. Qed.

Lemma filter_all_true {A} (f : A → bool) (l : list A) :
  (∀ x, f x = true) → List.filter f l = l.
Proof.
  intros Hf. induction l as [|x l IH]; simpl; [done|].
  by rewrite Hf, IH.
Qed.

Lemma filter_sublist {A} (f : A → bool) (l : list A) :
  sublist (List.filter f l) l.
Proof.
  induction l as [|x l IH]; simpl; [constructor|].
  destruct (f x); by constructor.
Qed.

(** ** The helpers *)

Section UtilsFacts.
Import Utils.
Local Open Scope Z_scope.

Lemma filterOptions_match (o : SelectOption) (q : string) :
  includes (toLowerCase (name o)) (toLowerCase q) = true ↔ ci_contains (name o) q.
Proof. unfold ci_contains. apply includes_spec. Qed.

Lemma filterOptions_elem (opts : list SelectOption) (q : string) (o : SelectOption) :
  o ∈ filterOptions opts q ↔ o ∈ opts ∧ ci_contains (name o) q.
Proof.
  rewrite !list_elem_of_In. unfold filterOptions. rewrite filter_In.
  by rewrite filterOptions_match.
Qed.

(** C2: [filterOptions] keeps exactly the options whose label contains the
    query as a case-insensitive substring, in the original order: the result
    is a subsequence of the input, an option heading the list is kept when
    its label matches and dropped when it does not, so an option is in the
    result exactly when it is in the input and matches; with the empty query
    the list comes back unchanged. *)
Theorem filterOptions_spec (opts : list SelectOption) (q : string) :
  sublist (filterOptions opts q) opts
  ∧ (∀ o, o ∈ filterOptions opts q ↔ o ∈ opts ∧ ci_contains (name o) q)
  ∧ (∀ o, ci_contains (name o) q →
          filterOptions (o :: opts) q = o :: filterOptions opts q)
  ∧ (∀ o, ¬ ci_contains (name o) q →
          filterOptions (o :: opts) q = filterOptions opts q)
  ∧ filterOptions [] q = []
  ∧ filterOptions opts EmptyString = opts.
Proof.
  split; [apply filter_sublist|].
  split; [intros o; apply filterOptions_elem|].
  split; [|split; [|split; [done|]]].
  - intros o Hm. apply filterOptions_match in Hm.
    unfold filterOptions. simpl. by rewrite Hm.
  - intros o Hm. unfold filterOptions. simpl.
    destruct (includes _ _) eqn:E; [|done].
    apply filterOptions_match in E. by destruct Hm.
  - unfold filterOptions. apply filter_all_true. intros o. apply includes_empty.
Qed.

Lemma filterOptions_spec_witness :
  ci_contains "Arizona" "RIZ"
  ∧ filterOptions (mkOption "Arizona" "AZ" :: states) "RIZ"
    = mkOption "Arizona" "AZ" :: filterOptions states "RIZ".
Proof.
  assert (ci_contains "Arizona" "RIZ") as Hm by (by exists "a", "ona").
  split; [exact Hm|].
  exact (proj1 (proj2 (proj2 (filterOptions_spec states "RIZ")))
           (mkOption "Arizona" "AZ") Hm).
Defined.

Lemma filterOptions_example :
  filterOptions states "a" = states
  ∧ filterOptions states "AL" = [mkOption "Alaska" "AK"]
  ∧ filterOptions states "x" = [mkOption "Texas" "TX"]
  ∧ filterOptions states "az" = [].
Proof. repeat split; reflexivity. Qed.

(** C3: the classifier is a total decision table over key identifiers. *)
Theorem getActionFromKey_table :
  getActionFromKey "ArrowDown" false = Open
  ∧ getActionFromKey "ArrowUp" false = Open
  ∧ getActionFromKey "ArrowDown" true = Next
  ∧ getActionFromKey "ArrowUp" true = Previous
  ∧ (∀ menuOpen, getActionFromKey "Home" menuOpen = First)
  ∧ (∀ menuOpen, getActionFromKey "End" menuOpen = Last)
  ∧ getActionFromKey "Enter" true = CloseSelect
  ∧ getActionFromKey "Enter" false = NoAction
  ∧ getActionFromKey "Escape" true = Close
  ∧ getActionFromKey "Escape" false = NoAction
  ∧ (∀ menuOpen, getActionFromKey "Tab" menuOpen = NoAction)
  ∧ (∀ c menuOpen, getActionFromKey (String c EmptyString) menuOpen = NoAction)
  ∧ (∀ key menuOpen, key ∉ recognised_keys →
                     getActionFromKey key menuOpen = NoAction)
  ∧ (∀ key menuOpen, ∃ action, getActionFromKey key menuOpen = action).
Proof.
  do 4 (split; [done|]).
  do 2 (split; [by intros []|]).
  do 4 (split; [done|]).
  split; [by intros []|].
  split.
  { intros c menuOpen. unfold getActionFromKey.
    repeat (case_decide; [discriminate|]). done. }
  split; [|intros key menuOpen; by eexists].
  intros key menuOpen Hkey. unfold getActionFromKey.
  repeat (case_decide; [subst key; exfalso; apply Hkey;
                        apply list_elem_of_In; simpl; tauto|]).
  done.
Qed.

Lemma getActionFromKey_table_witness :
  ("PageDown" ∉ recognised_keys) ∧ getActionFromKey "PageDown" true = NoAction.
Proof.
  assert ("PageDown" ∉ recognised_keys) as Hk
    by (intros H; apply list_elem_of_In in H; simpl in H;
        intuition discriminate).
  split; [exact Hk|].
  destruct getActionFromKey_table
    as (_ & _ & _ & _ & _ & _ & _ & _ & _ & _ & _ & _ & Hother & _).
  exact (Hother "PageDown" true Hk).
Defined.

(** C1: for [0 <= max] and [current] within [0, max] the calculator gives 0
    for First, [max] for Last, [current + 1] clamped to [max] for Next
    (no wrap to 0 past the end), [current - 1] clamped to 0 for Previous
    (no wrap to [max] at the start), [current] for Open, Close, CloseSelect
    and no action; the result is always within [0, max]. *)
Theorem getUpdatedIndex_spec (current max : Z) :
  0 ≤ max → 0 ≤ current ≤ max →
  getUpdatedIndex current max First = 0
  ∧ getUpdatedIndex current max Last = max
  ∧ getUpdatedIndex current max Next = Z.min (current + 1) max
  ∧ (current = max → getUpdatedIndex current max Next = max)
  ∧ getUpdatedIndex current max Previous = Z.max (current - 1) 0
  ∧ (current = 0 → getUpdatedIndex current max Previous = 0)
  ∧ getUpdatedIndex current max Open = current
  ∧ getUpdatedIndex current max Close = current
  ∧ getUpdatedIndex current max CloseSelect = current
  ∧ getUpdatedIndex current max NoAction = current
  ∧ (∀ action, 0 ≤ getUpdatedIndex current max action ≤ max).
Proof.
  intros Hmax Hcur. unfold getUpdatedIndex.
  destruct (Z.ltb_spec max 0) as [Hneg|_]; [lia|].
  repeat split; try done; try lia; destruct action; lia.
Qed.

Lemma getUpdatedIndex_spec_witness :
  getUpdatedIndex 2 4 Next = 3 ∧ getUpdatedIndex 0 4 Previous = 0.
Proof.
  destruct (getUpdatedIndex_spec 2 4 ltac:(lia) ltac:(lia))
    as (_ & _ & Hnext & _).
  destruct (getUpdatedIndex_spec 0 4 ltac:(lia) ltac:(lia))
    as (_ & _ & _ & _ & _ & Hprev & _).
  split; [exact Hnext | exact (Hprev eq_refl)].
Defined.

(** C8: First is idempotent, and Next at the upper bound changes nothing. *)
Theorem getUpdatedIndex_idempotent (current max : Z) :
  0 ≤ max → 0 ≤ current ≤ max →
  getUpdatedIndex (getUpdatedIndex current max First) max First
    = getUpdatedIndex current max First
  ∧ (current = max → getUpdatedIndex current max Next = current).
Proof.
  intros Hmax Hcur. unfold getUpdatedIndex.
  destruct (Z.ltb_spec max 0) as [Hneg|_]; [lia|].
  split; [done | lia].
Qed.

Lemma getUpdatedIndex_idempotent_witness :
  getUpdatedIndex (getUpdatedIndex 3 3 First) 3 First = getUpdatedIndex 3 3 First
  ∧ getUpdatedIndex 3 3 Next = 3.
Proof.
  destruct (getUpdatedIndex_idempotent 3 3 ltac:(lia) ltac:(lia)) as [H1 H2].
  split; [exact H1 | exact (H2 eq_refl)].
Defined.

End UtilsFacts.

(** ** The [combo-eleven] widget *)

Section ComboElevenFacts.
Import Utils ComboEleven.

Lemma array_length_pos {A} (l : list A) :
  (0 <? array_length l)%Z = true ↔ l ≠ [].
Proof.
  unfold array_length. destruct l; simpl; split; try done; intros; lia.
Qed.

Lemma array_length_zero {A} (l : list A) :
  (0 <? array_length l)%Z = false ↔ l = [].
Proof.
  unfold array_length. destruct l; simpl; split; try done; intros; lia.
Qed.

Lemma array_get_head {A} (l : list A) : array_get l 0 = head l.
Proof. by destruct l. Qed.

Lemma CE_onInput_open (v : string) (s : State) :
  open (onInput v s) = (0 <? array_length (filteredOptions (onInput v s)))%Z
  ∧ filteredOptions (onInput v s) = filterOptions (options s) v
  ∧ options (onInput v s) = options s
  ∧ trace (onInput v s) = trace s.
Proof.
  unfold onInput. simpl.
  destruct (decide (value s ≠ v)); simpl;
    destruct (open s) eqn:Ho,
      (0 <? array_length (filterOptions (options s) v))%Z eqn:E;
    simpl; rewrite ?E, ?Ho; done.
Qed.

Lemma CE_onInput_changed (v : string) (s : State) :
  value s ≠ v →
  activeIndex (onInput v s) = 0%Z
  ∧ selectedIndex (onInput v s) = None
  ∧ value (onInput v s) = v.
Proof.
  intros Hv. unfold onInput. simpl.
  destruct (decide (value s ≠ v)); [|done]. simpl.
  destruct (negb _); done.
Qed.

Lemma CE_selectOption (index : Z) (s : State) (o : SelectOption) :
  array_get (filteredOptions s) index = Some o →
  ∃ s', selectOption index s = Ok s'
        ∧ value s' = name o
        ∧ open s' = open s
        ∧ activeIndex s' = 0%Z
        ∧ selectedIndex s' = Some 0%Z
        ∧ filteredOptions s' = filterOptions (options s) (name o)
        ∧ trace s' = trace s ++ [EmitSelect o].
Proof.
  intros Hget. unfold selectOption. rewrite Hget. by eexists.
Qed.

Lemma CE_selectOption_undefined (index : Z) (s : State) :
  array_get (filteredOptions s) index = None → selectOption index s = TypeError s.
Proof. intros Hget. unfold selectOption. by rewrite Hget. Qed.

Lemma CE_enter_selects (s : State) (o : SelectOption) :
  open s = true →
  array_get (filteredOptions s) (activeIndex s) = Some o →
  ∃ s', onInputKeyDown "Enter" s = Ok s'
        ∧ value s' = name o
        ∧ open s' = false
        ∧ trace s' = trace s ++ [PreventDefault; EmitSelect o; Focus].
Proof.
  intros Hopen Hget. unfold onInputKeyDown. rewrite Hopen. simpl.
  unfold selectOption. simpl. rewrite Hget. simpl.
  eexists; split; [done|]. simpl. by rewrite <- !app_assoc.
Qed.

Lemma CE_click_selects (s : State) (index : Z) (o : SelectOption) :
  array_get (filteredOptions s) index = Some o →
  ∃ s', onOptionClick index s = Ok s'
        ∧ value s' = name o
        ∧ open s' = false
        ∧ trace s' = trace s ++ [EmitSelect o; Focus].
Proof.
  intros Hget. unfold onOptionClick, selectOption. simpl. rewrite Hget. simpl.
  eexists; split; [done|]. simpl. by rewrite <- !app_assoc.
Qed.

Lemma CE_keydown_open (key : string) (s s' : State) :
  onInputKeyDown key s = Ok s' →
  open s' = match getActionFromKey key (open s) with
            | Open => true
            | Close | CloseSelect => false
            | _ => open s
            end.
Proof.
  unfold onInputKeyDown.
  destruct (getActionFromKey key (open s)); simpl;
    try (intros [= <-]; done).
  unfold selectOption. simpl.
  destruct (array_get _ _); simpl; [intros [= <-]; done | done].
Qed.

Lemma CE_transitions (e : Event) (s s' : State) :
  handle e s = Ok s' →
  (open s = false → open s' = true → opens_menu e s s')
  ∧ (open s = true → open s' = false → closes_menu e s s')
  ∧ (keepsMenu e s → open s' = open s).
Proof.
  intros Hrun. destruct e as [| |v|key|index| |newValue]; simpl in Hrun.
  - injection Hrun as <-. unfold onInputBlur, closes_menu, closes_per_spec.
    split; [|split].
    + destruct (ignoreBlur s); simpl; congruence.
    + intros _ _. left. by right; right.
    + by intros (a & [=] & _).
  - injection Hrun as <-. split; [|split].
    + intros _ _. by right.
    + simpl. congruence.
    + by intros (a & [=] & _).
  - injection Hrun as <-.
    destruct (CE_onInput_open v s) as (Hopen & _).
    split; [|split].
    + intros _ Ho. left. right. split; [done|].
      apply array_length_pos. congruence.
    + intros _ Ho. right. right. split; [done|].
      apply array_length_zero. congruence.
    + by intros (a & [=] & _).
  - apply CE_keydown_open in Hrun.
    unfold opens_menu, closes_menu, opens_per_spec, closes_per_spec, keepsMenu.
    simpl. split; [|split].
    + intros Hs Hs'. left. left. f_equal. rewrite Hs in *.
      destruct (getActionFromKey key false); congruence.
    + intros Hs Hs'. left. rewrite Hs in *.
      destruct (getActionFromKey key true); try congruence; auto.
    + intros (a & [= <-] & H1 & H2 & H3).
      destruct (getActionFromKey key (open s)); congruence.
  - unfold onOptionClick in Hrun. split; [|split].
    + unfold selectOption in Hrun. simpl in Hrun.
      destruct (array_get _ _); simpl in Hrun; [|done].
      injection Hrun as <-. simpl. congruence.
    + intros _ _. right. left. by exists index.
    + by intros (a & [=] & _).
  - injection Hrun as <-. simpl.
    split; [|split]; try congruence; by intros (a & [=] & _).
  - injection Hrun as <-. simpl.
    split; [|split]; try congruence; by intros (a & [=] & _).
Qed.

(** A handler of [combo-eleven] throws exactly when it selects an index that
    designates no option of the filtered list; the menu flag is then as it
    was. *)
Lemma CE_handle_throws_iff (e : Event) (s : State) :
  (∃ s', handle e s = TypeError s')
  ↔ (keyAction e s = Some CloseSelect
     ∧ array_get (filteredOptions s) (activeIndex s) = None)
    ∨ (∃ index, e = OptionClick index
                ∧ array_get (filteredOptions s) index = None).
Proof.
  destruct e as [| |v|key|index| |newValue]; simpl;
    try solve [split; [intros [s' [=]] | intros [[[=] _]|(i & [=] & _)]]].
  - unfold onInputKeyDown, selectOption.
    destruct (getActionFromKey key (open s)) eqn:Ha; simpl;
      try solve [split; [intros [s' [=]] | intros [[[=] _]|(i & [=] & _)]]].
    destruct (array_get _ _) eqn:Hget; simpl.
    + split; [intros [s' [=]] | intros [[_ [=]]|(i & [=] & _)]].
    + split; [intros _; by left | intros _; by eexists].
  - unfold onOptionClick, selectOption. simpl.
    destruct (array_get _ index) eqn:Hget; simpl.
    + split; [intros [s' [=]] | intros [[[=] _]|(i & [= <-] & Hi)]].
      congruence.
    + split; [intros _; right; by exists index | intros _; by eexists].
Qed.

Lemma CE_handle_throws_open (e : Event) (s s' : State) :
  handle e s = TypeError s' → open s' = open s.
Proof.
  destruct e as [| |v|key|index| |newValue]; simpl; try done.
  - unfold onInputKeyDown, selectOption.
    destruct (getActionFromKey key (open s)); simpl; try done.
    destruct (array_get _ _); simpl; [done|]. by intros [= <-].
  - unfold onOptionClick, selectOption. simpl.
    destruct (array_get _ _); simpl; [done|]. by intros [= <-].
Qed.

End ComboElevenFacts.

(** ** The [sui-combobox] widget *)

Section SuiComboboxFacts.
Import Utils SuiCombobox.

Lemma SC_onInput_open (v : string) (s s' : State) :
  onInput v s = Ok s' →
  open s' = (0 <? array_length (filteredOptions s'))%Z
  ∧ options s' = options s
  ∧ trace s' = trace s.
Proof.
  unfold onInput.
  destruct (if filter s then _ else _) as [s1|] eqn:E1; simpl; [|done].
  assert (options s1 = options s ∧ trace s1 = trace s) as [Hopts Htr].
  { destruct (filter s).
    - by injection E1 as <-.
    - destruct (filterCurrentOption _ s) as [cur|]; simpl in E1; [|done].
      destruct (filterOptions (options s) v) as [|m0 ms];
        [by injection E1 as <-|].
      destruct cur; by injection E1 as <-. }
  intros [= <-].
  destruct (decide (value s1 ≠ v)); simpl;
    destruct (open s1) eqn:Ho,
      (0 <? array_length (filteredOptions s1))%Z eqn:E;
    simpl; rewrite ?E, ?Ho; done.
Qed.

Lemma SC_onInput_filter (v : string) (s : State) :
  filter s = true →
  ∃ s', onInput v s = Ok s'
        ∧ activeIndex s' = 0%Z
        ∧ filteredOptions s' = filterOptions (options s) v
        ∧ value s' = v.
Proof.
  intros Hf. unfold onInput. rewrite Hf. simpl.
  eexists; split; [done|].
  destruct (decide (value s ≠ v)) as [|Hv]; simpl.
  - destruct (negb _); done.
  - apply dec_stable in Hv. destruct (negb _); done.
Qed.

Lemma SC_selectOption_undefined (index : Z) (s : State) :
  array_get (filteredOptions s) index = None → selectOption index s = TypeError s.
Proof. intros Hget. unfold selectOption. by rewrite Hget. Qed.

Lemma SC_enter_selects (s : State) (o : SelectOption) :
  open s = true →
  array_get (filteredOptions s) (activeIndex s) = Some o →
  ∃ s', onInputKeyDown "Enter" s = Ok s'
        ∧ value s' = name o
        ∧ selectedValue s' = name o
        ∧ open s' = false
        ∧ trace s' = trace s ++ [PreventDefault; EmitSelect o; Focus].
Proof.
  intros Hopen Hget. unfold onInputKeyDown. rewrite Hopen. simpl.
  unfold selectOption. simpl. rewrite Hget. simpl.
  eexists; split; [done|]. destruct (filter s); simpl; by rewrite <- !app_assoc.
Qed.

Lemma SC_click_selects (s : State) (index : Z) (o : SelectOption) :
  array_get (filteredOptions s) index = Some o →
  ∃ s', onOptionClick index s = Ok s'
        ∧ value s' = name o
        ∧ selectedValue s' = name o
        ∧ open s' = false
        ∧ trace s' = trace s ++ [EmitSelect o; Focus].
Proof.
  intros Hget. unfold onOptionClick, selectOption. simpl. rewrite Hget. simpl.
  eexists; split; [done|]. destruct (filter s); simpl; by rewrite <- !app_assoc.
Qed.

Lemma SC_selectOption_open (index : Z) (s s' : State) :
  selectOption index s = Ok s' → open s' = open s.
Proof.
  unfold selectOption. destruct (array_get _ _); [|done].
  intros [= <-]. by destruct (filter s).
Qed.

Lemma SC_keydown_open (key : string) (s s' : State) :
  onInputKeyDown key s = Ok s' →
  open s' = match getActionFromKey key (open s) with
            | Open => true
            | Close | CloseSelect => false
            | _ => open s
            end.
Proof.
  unfold onInputKeyDown.
  destruct (getActionFromKey key (open s)); simpl;
    try (intros [= <-]; done).
  destruct (selectOption _ _); simpl; [intros [= <-]; done | done].
Qed.

Lemma SC_transitions (e : Event) (s s' : State) :
  handle e s = Ok s' →
  (open s = false → open s' = true → opens_menu e s s')
  ∧ (open s = true → open s' = false → closes_menu e s s')
  ∧ (keepsMenu e s → open s' = open s).
Proof.
  intros Hrun. destruct e as [| |v|key|index| |newValue]; simpl in Hrun.
  - unfold onInputBlur in Hrun. split; [|split].
    + destruct (ignoreBlur s); [injection Hrun as <-; simpl; congruence|].
      destruct (open s) eqn:Ho; [done|]. injection Hrun as <-. congruence.
    + intros _ _. left. by right; right.
    + by intros (a & [=] & _).
  - injection Hrun as <-. split; [|split].
    + intros _ _. by right.
    + simpl. congruence.
    + by intros (a & [=] & _).
  - destruct (SC_onInput_open v s s' Hrun) as (Hopen & _).
    split; [|split].
    + intros _ Ho. left. right. split; [done|].
      apply array_length_pos. congruence.
    + intros _ Ho. right. right. split; [done|].
      apply array_length_zero. congruence.
    + by intros (a & [=] & _).
  - apply SC_keydown_open in Hrun.
    unfold opens_menu, closes_menu, opens_per_spec, closes_per_spec, keepsMenu.
    simpl. split; [|split].
    + intros Hs Hs'. left. left. f_equal. rewrite Hs in *.
      destruct (getActionFromKey key false); congruence.
    + intros Hs Hs'. left. rewrite Hs in *.
      destruct (getActionFromKey key true); try congruence; auto.
    + intros (a & [= <-] & H1 & H2 & H3).
      destruct (getActionFromKey key (open s)); congruence.
  - unfold onOptionClick in Hrun. split; [|split].
    + destruct (selectOption _ _); simpl in Hrun; [|done].
      injection Hrun as <-. simpl. congruence.
    + intros _ _. right. left. by exists index.
    + by intros (a & [=] & _).
  - injection Hrun as <-. simpl.
    split; [|split]; try congruence; by intros (a & [=] & _).
  - injection Hrun as <-. unfold watchOptions. simpl.
    split; [|split]; try (destruct (filter s); simpl; congruence);
      by intros (a & [=] & _).
Qed.

Lemma SC_selectOption_throws (index : Z) (s s' : State) :
  selectOption index s = TypeError s' →
  s' = s ∧ array_get (filteredOptions s) index = None.
Proof.
  unfold selectOption. destruct (array_get _ _); [done|]. by intros [= <-].
Qed.

(** A handler of [sui-combobox] that throws leaves the menu flag as it
    was. *)
Lemma SC_handle_throws_open (e : Event) (s s' : State) :
  handle e s = TypeError s' → open s' = open s.
Proof.
  destruct e as [| |v|key|index| |newValue]; simpl; try done.
  - unfold onInputBlur. destruct (ignoreBlur s); [done|].
    destruct (open s) eqn:Ho; [|done].
    destruct (selectOption _ s) as [s1|s1] eqn:E; simpl; [done|].
    intros [= <-]. apply SC_selectOption_throws in E as [-> _]. done.
  - unfold onInput.
    destruct (if filter s then _ else _) as [s1|s1] eqn:E1; simpl; [done|].
    intros [= <-]. destruct (filter s); [done|].
    destruct (filterCurrentOption _ s) as [cur|s2] eqn:E2; simpl in E1.
    + destruct (filterOptions (options s) v), cur; done.
    + injection E1 as <-. unfold filterCurrentOption in E2.
      destruct (filterOptions (options s) v); [done|].
      destruct (array_get _ _); [done|]. by injection E2 as <-.
  - unfold onInputKeyDown.
    destruct (getActionFromKey key (open s)); simpl; try done.
    destruct (selectOption _ _) as [s1|s1] eqn:E; simpl; [done|].
    intros [= <-]. apply SC_selectOption_throws in E as [-> _]. done.
  - unfold onOptionClick.
    destruct (selectOption _ _) as [s1|s1] eqn:E; simpl; [done|].
    intros [= <-]. apply SC_selectOption_throws in E as [-> _]. done.
Qed.


End SuiComboboxFacts.

(** ** The widgets against the specification *)

Section Widgets.
Import Utils.

(** C4, as the specification words it, fails: in [combo-eleven] with the
    menu open after typing "a", typing on to "az" leaves no matching option
    and the input handler closes the menu, although the event is neither
    Close, CloseSelect nor a loss of focus; a click on the first option
    closes it as well; and a click on the input of the freshly loaded widget
    opens the menu, although it is neither the Open action nor input. *)
Lemma menu_spec_transitions_incomplete :
  (ComboEleven.open combo_typed_a = true
   ∧ ComboEleven.handle (ComboEleven.Input "az") combo_typed_a
     = Ok (ComboEleven.onInput "az" combo_typed_a)
   ∧ ComboEleven.open (ComboEleven.onInput "az" combo_typed_a) = false
   ∧ ¬ ComboEleven.closes_per_spec (ComboEleven.Input "az") combo_typed_a)
  ∧ (ComboEleven.handle (ComboEleven.OptionClick 0) combo_typed_a
     = Ok (ComboEleven.mkState states 0 [mkOption "Alaska" "AK"] false
             (Some 0%Z) "Alaska" false
             [EmitSelect (mkOption "Alaska" "AK"); Focus])
     ∧ ¬ ComboEleven.closes_per_spec (ComboEleven.OptionClick 0) combo_typed_a)
  ∧ (ComboEleven.open combo_loaded = false
     ∧ ComboEleven.handle ComboEleven.InputClick combo_loaded
       = Ok (ComboEleven.updateMenuState true true combo_loaded)
     ∧ ComboEleven.open (ComboEleven.updateMenuState true true combo_loaded) = true
     ∧ ¬ ComboEleven.opens_per_spec ComboEleven.InputClick combo_loaded
           (ComboEleven.updateMenuState true true combo_loaded)).
Proof.
  split; [|split].
  - do 3 (split; [reflexivity|]).
    intros [H|[H|H]]; discriminate H.
  - split; [reflexivity|].
    intros [H|[H|H]]; discriminate H.
  - do 3 (split; [reflexivity|]).
    intros [H|[H _]]; [discriminate H | exact H].
Qed.

(** C4, amended: in both widgets the menu goes from closed to open only on
    the Open action, on a click on the input, or on an input event that
    leaves a non-empty filtered list; it goes from open to closed only on
    Close, CloseSelect, loss of focus, a click on an option, or an input
    event that leaves an empty filtered list; a key press that resolves to
    any other action leaves the menu state as it was, and so does a handler
    that throws. *)
Theorem menu_transitions :
  (∀ e s s', ComboEleven.handle e s = Ok s' →
     (ComboEleven.open s = false → ComboEleven.open s' = true →
      ComboEleven.opens_menu e s s')
     ∧ (ComboEleven.open s = true → ComboEleven.open s' = false →
        ComboEleven.closes_menu e s s')
     ∧ (ComboEleven.keepsMenu e s → ComboEleven.open s' = ComboEleven.open s))
  ∧ (∀ e s s', ComboEleven.handle e s = TypeError s' →
       ComboEleven.open s' = ComboEleven.open s)
  ∧ (∀ e s s', SuiCombobox.handle e s = Ok s' →
       (SuiCombobox.open s = false → SuiCombobox.open s' = true →
        SuiCombobox.opens_menu e s s')
       ∧ (SuiCombobox.open s = true → SuiCombobox.open s' = false →
          SuiCombobox.closes_menu e s s')
       ∧ (SuiCombobox.keepsMenu e s → SuiCombobox.open s' = SuiCombobox.open s))
  ∧ (∀ e s s', SuiCombobox.handle e s = TypeError s' →
       SuiCombobox.open s' = SuiCombobox.open s).
Proof.
  split; [|split; [|split]]; intros e s s' Hrun.
  - by apply CE_transitions.
  - by apply (CE_handle_throws_open e).
  - by apply SC_transitions.
  - by apply (SC_handle_throws_open e).
Qed.

Lemma menu_transitions_witness :
  ComboEleven.closes_menu (ComboEleven.Input "az") combo_typed_a
    (ComboEleven.onInput "az" combo_typed_a)
  ∧ SuiCombobox.opens_menu (SuiCombobox.KeyDown "ArrowDown") sui_loaded
      (SuiCombobox.updateMenuState true true sui_loaded).
Proof.
  split.
  - exact (proj1 (proj2 (proj1 menu_transitions (ComboEleven.Input "az")
             combo_typed_a _ eq_refl)) eq_refl eq_refl).
  - exact (proj1 (proj1 (proj2 (proj2 menu_transitions))
             (SuiCombobox.KeyDown "ArrowDown") sui_loaded _ eq_refl)
             eq_refl eq_refl).
Defined.

(** C5: selecting while the filtered list is empty throws.  In
    [combo-eleven], typing "zzz" empties the list and closes the menu,
    ArrowDown opens it again, and Enter then reads the name of an undefined
    option.  In [sui-combobox] with filtering, typing "zzz", clicking the
    input and leaving it takes the same path through the blur handler. *)
Theorem select_on_empty_list_throws :
  ComboEleven.run
    [ComboEleven.Input "zzz"; ComboEleven.KeyDown "ArrowDown"] combo_loaded
    = Ok (ComboEleven.mkState states 0 [] true None "zzz" false [Focus])
  ∧ ComboEleven.run
      [ComboEleven.Input "zzz"; ComboEleven.KeyDown "ArrowDown";
       ComboEleven.KeyDown "Enter"] combo_loaded
    = TypeError (ComboEleven.mkState states 0 [] true None "zzz" false
                   [Focus; PreventDefault])
  ∧ SuiCombobox.run
      [SuiCombobox.Input "zzz"; SuiCombobox.InputClick] sui_loaded
    = Ok (SuiCombobox.mkState true states 0 [] true "zzz" false EmptyString [Focus])
  ∧ SuiCombobox.run
      [SuiCombobox.Input "zzz"; SuiCombobox.InputClick; SuiCombobox.InputBlur]
      sui_loaded
    = TypeError (SuiCombobox.mkState true states 0 [] true "zzz" false EmptyString
                   [Focus]).
Proof. repeat split; reflexivity. Qed.

(** C6: when Enter is pressed with the menu open, or an option is clicked,
    and the active (or clicked) index designates an option of the filtered
    list, the input value becomes that option's name, one select event
    carrying that option is emitted, and the menu ends closed. *)
Theorem select_commits_option :
  (∀ s o, ComboEleven.open s = true →
     array_get (ComboEleven.filteredOptions s) (ComboEleven.activeIndex s) = Some o →
     ∃ s', ComboEleven.handle (ComboEleven.KeyDown "Enter") s = Ok s'
           ∧ ComboEleven.value s' = name o
           ∧ ComboEleven.open s' = false
           ∧ ComboEleven.trace s'
             = ComboEleven.trace s ++ [PreventDefault; EmitSelect o; Focus])
  ∧ (∀ s index o,
       array_get (ComboEleven.filteredOptions s) index = Some o →
       ∃ s', ComboEleven.handle (ComboEleven.OptionClick index) s = Ok s'
             ∧ ComboEleven.value s' = name o
             ∧ ComboEleven.open s' = false
             ∧ ComboEleven.trace s' = ComboEleven.trace s ++ [EmitSelect o; Focus])
  ∧ (∀ s o, SuiCombobox.open s = true →
       array_get (SuiCombobox.filteredOptions s) (SuiCombobox.activeIndex s) = Some o →
       ∃ s', SuiCombobox.handle (SuiCombobox.KeyDown "Enter") s = Ok s'
             ∧ SuiCombobox.value s' = name o
             ∧ SuiCombobox.selectedValue s' = name o
             ∧ SuiCombobox.open s' = false
             ∧ SuiCombobox.trace s'
               = SuiCombobox.trace s ++ [PreventDefault; EmitSelect o; Focus])
  ∧ (∀ s index o,
       array_get (SuiCombobox.filteredOptions s) index = Some o →
       ∃ s', SuiCombobox.handle (SuiCombobox.OptionClick index) s = Ok s'
             ∧ SuiCombobox.value s' = name o
             ∧ SuiCombobox.selectedValue s' = name o
             ∧ SuiCombobox.open s' = false
             ∧ SuiCombobox.trace s' = SuiCombobox.trace s ++ [EmitSelect o; Focus]).
Proof.
  split; [|split; [|split]].
  - intros s o. apply CE_enter_selects.
  - intros s index o. apply CE_click_selects.
  - intros s o. apply SC_enter_selects.
  - intros s index o. apply SC_click_selects.
Qed.

Lemma select_commits_option_witness :
  (∃ s', ComboEleven.handle (ComboEleven.KeyDown "Enter") combo_typed_a = Ok s'
         ∧ ComboEleven.value s' = "Alaska"
         ∧ ComboEleven.open s' = false
         ∧ ComboEleven.trace s'
           = [PreventDefault; EmitSelect (mkOption "Alaska" "AK"); Focus])
  ∧ (∃ s', ComboEleven.handle (ComboEleven.OptionClick 1) combo_typed_a = Ok s'
           ∧ ComboEleven.value s' = "Arizona"
           ∧ ComboEleven.open s' = false
           ∧ ComboEleven.trace s' = [EmitSelect (mkOption "Arizona" "AZ"); Focus]).
Proof.
  split.
  - exact (proj1 select_commits_option combo_typed_a
             (mkOption "Alaska" "AK") eq_refl eq_refl).
  - exact (proj1 (proj2 select_commits_option) combo_typed_a 1%Z
             (mkOption "Arizona" "AZ") eq_refl).
Defined.

(** C7: in [sui-combobox], Escape with the menu open puts the last
    committed selected value back into the input, makes the filtered list
    the full option list again, sets the active index to 0 and closes the
    menu. *)
Theorem escape_reverts_and_closes (s : SuiCombobox.State) :
  SuiCombobox.open s = true →
  ∃ s', SuiCombobox.handle (SuiCombobox.KeyDown "Escape") s = Ok s'
        ∧ SuiCombobox.value s' = SuiCombobox.selectedValue s
        ∧ SuiCombobox.filteredOptions s' = SuiCombobox.options s
        ∧ SuiCombobox.activeIndex s' = 0%Z
        ∧ SuiCombobox.open s' = false
        ∧ SuiCombobox.selectedValue s' = SuiCombobox.selectedValue s
        ∧ SuiCombobox.options s' = SuiCombobox.options s.
Proof.
  intros Hopen. simpl. unfold SuiCombobox.onInputKeyDown. rewrite Hopen.
  simpl. by eexists.
Qed.

Lemma escape_reverts_and_closes_witness :
  ∃ s', SuiCombobox.handle (SuiCombobox.KeyDown "Escape") sui_typed_al = Ok s'
        ∧ SuiCombobox.value s' = "Texas"
        ∧ SuiCombobox.filteredOptions s' = states
        ∧ SuiCombobox.activeIndex s' = 0%Z
        ∧ SuiCombobox.open s' = false.
Proof.
  destruct (escape_reverts_and_closes sui_typed_al eq_refl)
    as (s' & Hrun & Hvalue & Hfiltered & Hactive & Hopen & _).
  exists s'. repeat split; assumption.
Defined.

(** C10: a change of the query text resets the active index.  In
    [combo-eleven] an input event whose text differs from the stored value
    sets the active index to 0 and clears the selected index; in
    [sui-combobox] with filtering every input event sets the active index
    to 0.  In both the filtered list is then the filter of the options by the
    new text, and the active option is its first element when it has one. *)
Theorem input_resets_activeIndex :
  (∀ s curValue, ComboEleven.value s ≠ curValue →
     ∃ s', ComboEleven.handle (ComboEleven.Input curValue) s = Ok s'
           ∧ ComboEleven.activeIndex s' = 0%Z
           ∧ ComboEleven.selectedIndex s' = None
           ∧ ComboEleven.value s' = curValue
           ∧ ComboEleven.filteredOptions s'
             = filterOptions (ComboEleven.options s) curValue
           ∧ array_get (ComboEleven.filteredOptions s') (ComboEleven.activeIndex s')
             = head (ComboEleven.filteredOptions s'))
  ∧ (∀ s curValue, SuiCombobox.filter s = true →
       ∃ s', SuiCombobox.handle (SuiCombobox.Input curValue) s = Ok s'
             ∧ SuiCombobox.activeIndex s' = 0%Z
             ∧ SuiCombobox.value s' = curValue
             ∧ SuiCombobox.filteredOptions s'
               = filterOptions (SuiCombobox.options s) curValue
             ∧ array_get (SuiCombobox.filteredOptions s') (SuiCombobox.activeIndex s')
               = head (SuiCombobox.filteredOptions s')).
Proof.
  split.
  - intros s v Hv. exists (ComboEleven.onInput v s).
    destruct (CE_onInput_changed v s Hv) as (Ha & Hs & Hval).
    destruct (CE_onInput_open v s) as (_ & Hf & _).
    repeat split; try assumption. rewrite Ha. apply array_get_head.
  - intros s v Hf.
    destruct (SC_onInput_filter v s Hf) as (s' & Hrun & Ha & Hfo & Hval).
    exists s'. repeat split; try assumption. rewrite Ha. apply array_get_head.
Qed.

Lemma input_resets_activeIndex_witness :
  (∃ s', ComboEleven.handle (ComboEleven.Input "ar")
           (ComboEleven.mkState states 2 states true (Some 0%Z) EmptyString false []) = Ok s'
         ∧ ComboEleven.activeIndex s' = 0%Z
         ∧ ComboEleven.selectedIndex s' = None
         ∧ ComboEleven.filteredOptions s' = [mkOption "Arizona" "AZ"])
  ∧ (∃ s', SuiCombobox.handle (SuiCombobox.Input "ar")
             (SuiCombobox.mkState true states 2 states true EmptyString false EmptyString []) = Ok s'
           ∧ SuiCombobox.activeIndex s' = 0%Z
           ∧ SuiCombobox.filteredOptions s' = [mkOption "Arizona" "AZ"]).
Proof.
  split.
  - destruct (proj1 input_resets_activeIndex
                (ComboEleven.mkState states 2 states true (Some 0%Z) EmptyString false [])
                "ar" ltac:(discriminate))
      as (s' & Hrun & Ha & Hs & _ & Hf & _).
    exists s'. repeat split; assumption.
  - destruct (proj2 input_resets_activeIndex
                (SuiCombobox.mkState true states 2 states true EmptyString false EmptyString [])
                "ar" eq_refl)
      as (s' & Hrun & Ha & _ & Hf & _).
    exists s'. repeat split; assumption.
Defined.

Lemma sui_typed_al_reached :
  SuiCombobox.run [SuiCombobox.OptionClick 2; SuiCombobox.Input "Al"] sui_loaded
  = Ok sui_typed_al.
Proof. reflexivity. Qed.

Lemma CE_options_preserved (e : ComboEleven.Event) (s s' : ComboEleven.State) :
  ComboEleven.handle e s = Ok s' →
  (∀ newValue, e ≠ ComboEleven.OptionsChanged newValue) →
  ComboEleven.options s' = ComboEleven.options s.
Proof.
  intros Hrun Hne. destruct e as [| |v|key|index| |newValue]; simpl in Hrun.
  - injection Hrun as <-. unfold ComboEleven.onInputBlur.
    by destruct (ComboEleven.ignoreBlur s).
  - by injection Hrun as <-.
  - injection Hrun as <-. by destruct (CE_onInput_open v s) as (_ & _ & ? & _).
  - unfold ComboEleven.onInputKeyDown, ComboEleven.selectOption in Hrun.
    destruct (getActionFromKey key (ComboEleven.open s)); simpl in Hrun;
      try (by injection Hrun as <-).
    destruct (array_get _ _); simpl in Hrun; [by injection Hrun as <-|done].
  - unfold ComboEleven.onOptionClick, ComboEleven.selectOption in Hrun.
    simpl in Hrun.
    destruct (array_get _ _); simpl in Hrun; [by injection Hrun as <-|done].
  - by injection Hrun as <-.
  - by destruct (Hne newValue).
Qed.

Lemma SC_selectOption_options (index : Z) (s s' : SuiCombobox.State) :
  SuiCombobox.selectOption index s = Ok s' →
  SuiCombobox.options s' = SuiCombobox.options s.
Proof.
  unfold SuiCombobox.selectOption. destruct (array_get _ _); [|done].
  intros [= <-]. by destruct (SuiCombobox.filter s).
Qed.

Lemma SC_options_preserved (e : SuiCombobox.Event) (s s' : SuiCombobox.State) :
  SuiCombobox.handle e s = Ok s' →
  (∀ newValue, e ≠ SuiCombobox.OptionsChanged newValue) →
  SuiCombobox.options s' = SuiCombobox.options s.
Proof.
  intros Hrun Hne. destruct e as [| |v|key|index| |newValue]; simpl in Hrun.
  - unfold SuiCombobox.onInputBlur in Hrun.
    destruct (SuiCombobox.ignoreBlur s); [by injection Hrun as <-|].
    destruct (SuiCombobox.open s); [|by injection Hrun as <-].
    destruct (SuiCombobox.selectOption _ s) as [s1|] eqn:E; simpl in Hrun;
      [|done].
    injection Hrun as <-. simpl. by apply SC_selectOption_options in E.
  - by injection Hrun as <-.
  - by destruct (SC_onInput_open v s s' Hrun) as (_ & ? & _).
  - unfold SuiCombobox.onInputKeyDown in Hrun.
    destruct (getActionFromKey key (SuiCombobox.open s)); simpl in Hrun;
      try (by injection Hrun as <-).
    destruct (SuiCombobox.selectOption _ _) as [s1|] eqn:E; simpl in Hrun;
      [|done].
    injection Hrun as <-. simpl. by apply SC_selectOption_options in E.
  - unfold SuiCombobox.onOptionClick in Hrun.
    destruct (SuiCombobox.selectOption _ _) as [s1|] eqn:E; simpl in Hrun;
      [|done].
    injection Hrun as <-. simpl. by apply SC_selectOption_options in E.
  - by injection Hrun as <-.
  - by destruct (Hne newValue).
Qed.

End Widgets.

(** * Further properties of the widgets *)

(** ** Traces *)

Lemma lastSelect_snoc (t : list Effect) (e : Effect) :
  lastSelect (t ++ [e])
  = match e with
    | EmitSelect detail => Some detail
    | _ => lastSelect t
    end.
Proof. unfold lastSelect. rewrite fold_left_app. by destruct e. Qed.

(** ** Reachable states of [combo-eleven] *)

Section ComboElevenReach.
Import Utils ComboEleven.

Lemma CE_step_filtered (e : Event) (s : State) :
  filteredOptions s = filterOptions (options s) (value s) →
  filteredOptions (after (handle e s))
  = filterOptions (options (after (handle e s))) (value (after (handle e s))).
Proof.
  intros Hinv. destruct e as [| |v|key|index| |newValue]; simpl.
  - unfold onInputBlur. by destruct (ignoreBlur s).
  - done.
  - unfold onInput. simpl.
    destruct (decide (value s ≠ v)) as [|Hv]; simpl.
    + by destruct (negb _).
    + apply dec_stable in Hv. destruct (negb _); simpl; by rewrite Hv.
  - unfold onInputKeyDown, selectOption.
    destruct (getActionFromKey key (open s)); simpl; try done.
    by destruct (array_get _ _).
  - unfold onOptionClick, selectOption. simpl.
    by destruct (array_get _ _).
  - done.
  - done.
Qed.

Lemma CE_reach_filtered (allowed : Event → Prop) (opts : list SelectOption)
    (s : State) :
  reaches allowed (componentDidLoad opts) s →
  filteredOptions s = filterOptions (options s) (value s).
Proof.
  induction 1 as [|s e _ IH _ _]; [done|]. by apply CE_step_filtered.
Qed.

(** X1: in [combo-eleven] the filtered list is always the filter of the
    current options by the current input value, whatever events the widget
    has handled since it was loaded, changes of the [options] property and
    handlers that threw included. *)
Theorem CE_filtered_follows_value (opts : list SelectOption) (s : State) :
  reaches anyEvent (componentDidLoad opts) s →
  filteredOptions s = filterOptions (options s) (value s).
Proof.
  induction 1 as [|s e Hreach IH _ _].
  - reflexivity.
  - by apply CE_step_filtered.
Qed.

Lemma CE_filtered_follows_value_witness :
  filteredOptions (after (handle (KeyDown "Enter") combo_typed_a))
  = filterOptions states "Alaska".
Proof.
  apply (CE_filtered_follows_value states
           (after (handle (KeyDown "Enter") combo_typed_a))).
  apply reaches_step; [|exact I|exact I].
  apply (reaches_step anyEvent (componentDidLoad states)
           (componentDidLoad states) (Input "a")); [|exact I|exact I].
  apply reaches_here.
Defined.

(** X2: an input event leaves the menu open exactly when the filtered list
    it computed is not empty, whatever the menu state was before; it
    neither moves the focus nor emits a select event, and it keeps the
    options. *)
Theorem CE_input_sets_menu (curValue : string) (s : State) :
  (open (onInput curValue s) = true ↔ filterOptions (options s) curValue ≠ [])
  ∧ filteredOptions (onInput curValue s) = filterOptions (options s) curValue
  ∧ value (onInput curValue s) = curValue
  ∧ trace (onInput curValue s) = trace s
  ∧ options (onInput curValue s) = options s
  ∧ ignoreBlur (onInput curValue s) = ignoreBlur s.
Proof.
  destruct (CE_onInput_open curValue s) as (Hopen & Hf & Hopts & Htr).
  split; [|split; [done|split; [|split; [done|split; [done|]]]]].
  - rewrite Hopen, Hf. apply array_length_pos.
  - unfold onInput. simpl. destruct (decide (value s ≠ curValue)) as [|Hv];
      simpl; [by destruct (negb _)|].
    apply dec_stable in Hv. by destruct (negb _).
  - unfold onInput. simpl. destruct (decide (value s ≠ curValue)); simpl;
      by destruct (negb _).
Qed.

Lemma getUpdatedIndex_in_range (current max : Z) (action : MenuActions) :
  (0 ≤ current ≤ Z.max 0 max)%Z →
  (0 ≤ getUpdatedIndex current max action ≤ Z.max 0 max)%Z.
Proof.
  intros Hcur. unfold getUpdatedIndex.
  destruct (Z.ltb_spec max 0); [lia|]. destruct action; lia.
Qed.

Lemma activeInRange_get (s : State) :
  activeInRange s → filteredOptions s ≠ [] →
  is_Some (array_get (filteredOptions s) (activeIndex s)).
Proof.
  intros [Hlo Hhi] Hne. unfold array_get, array_length in *.
  destruct (Z.ltb_spec (activeIndex s) 0); [lia|].
  apply lookup_lt_is_Some. destruct (filteredOptions s); [done|].
  simpl in *. lia.
Qed.

Lemma CE_step_active (e : Event) (s : State) :
  fixedOptions e → rendered e s →
  filteredOptions s = filterOptions (options s) (value s) →
  activeInRange s → activeInRange (after (handle e s)).
Proof.
  intros Hfixed Hrendered Hinv [Hlo Hhi]. unfold activeInRange.
  destruct e as [| |v|key|index| |newValue]; simpl.
  - unfold onInputBlur. by destruct (ignoreBlur s).
  - done.
  - unfold onInput. simpl.
    destruct (decide (value s ≠ v)) as [|Hv]; simpl.
    + destruct (negb _); simpl; lia.
    + apply dec_stable in Hv. rewrite <- Hv, <- Hinv.
      destruct (negb _); simpl; done.
  - unfold onInputKeyDown, selectOption.
    destruct (getActionFromKey key (open s)) eqn:Ha; simpl; try done;
      try (by apply getUpdatedIndex_in_range).
    destruct (array_get _ _); simpl; [lia|done].
  - unfold onOptionClick, selectOption. simpl.
    destruct Hrendered as [o Ho]. simpl in Ho. rewrite Ho. simpl. lia.
  - done.
  - done.
Qed.

Lemma CE_reach_active (opts : list SelectOption) (s : State) :
  reaches fixedOptions (componentDidLoad opts) s → activeInRange s.
Proof.
  intros Hreach.
  assert (filteredOptions s = filterOptions (options s) (value s)
          ∧ activeInRange s) as [_ Hrange]; [|done].
  induction Hreach as [|s e _ [IH1 IH2] Hfixed Hrendered].
  - split; [done|]. unfold activeInRange, array_length. simpl. lia.
  - split; [by apply CE_step_filtered | by apply CE_step_active].
Qed.

(** X3: as long as the [options] property is not replaced, the active index
    of [combo-eleven] is never negative and, whenever the filtered list is
    not empty, designates one of its options. *)
Theorem CE_active_option_exists (opts : list SelectOption) (s : State) :
  reaches fixedOptions (componentDidLoad opts) s →
  activeInRange s
  ∧ (filteredOptions s ≠ [] →
     is_Some (array_get (filteredOptions s) (activeIndex s))).
Proof.
  intros Hreach. apply CE_reach_active in Hreach.
  split; [done | by apply activeInRange_get].
Qed.

Lemma CE_active_option_exists_witness :
  is_Some (array_get
             (filteredOptions (after (handle (KeyDown "End") combo_typed_a)))
             (activeIndex (after (handle (KeyDown "End") combo_typed_a)))).
Proof.
  refine (proj2 (CE_active_option_exists states
                   (after (handle (KeyDown "End") combo_typed_a)) _) _).
  - apply reaches_step; [|exact I|exact I].
    apply (reaches_step fixedOptions (componentDidLoad states)
             (componentDidLoad states) (Input "a")); [|exact I|exact I].
    apply reaches_here.
  - discriminate.
Defined.

Lemma getActionFromKey_CloseSelect (key : string) (menuOpen : bool) :
  getActionFromKey key menuOpen = CloseSelect ↔ key = "Enter" ∧ menuOpen = true.
Proof.
  unfold getActionFromKey. split.
  - repeat case_decide; destruct menuOpen; try done.
  - by intros [-> ->].
Qed.

(** X4: as long as the [options] property is not replaced, the only
    interaction on which a handler of [combo-eleven] throws is Enter with
    the menu open on an empty filtered list. *)
Theorem CE_throws_only_on_empty_list (opts : list SelectOption) (s : State)
    (e : Event) :
  reaches fixedOptions (componentDidLoad opts) s → rendered e s →
  (∃ s', handle e s = TypeError s')
  ↔ e = KeyDown "Enter" ∧ open s = true ∧ filteredOptions s = [].
Proof.
  intros Hreach Hrendered.
  pose proof (activeInRange_get s (CE_reach_active opts s Hreach)) as Hactive.
  rewrite CE_handle_throws_iff. split.
  - intros [[Hkey Hget]|(index & -> & Hget)].
    + destruct e as [| |v|key|index| |newValue]; try discriminate Hkey.
      simpl in Hkey. injection Hkey as Hkey.
      apply getActionFromKey_CloseSelect in Hkey as [-> Hopen].
      split; [done|split; [done|]].
      destruct (filteredOptions s) eqn:Hf; [done|].
      destruct Hactive as [o Ho]; [done|]. congruence.
    + simpl in Hrendered. destruct Hrendered as [o Ho]. congruence.
  - intros (-> & Hopen & Hempty). left. simpl. rewrite Hopen, Hempty.
    split; [done|]. unfold array_get. by destruct (_ <? _)%Z.
Qed.

Lemma CE_throws_only_on_empty_list_witness :
  (∃ s', handle (KeyDown "Enter")
           (after (handle (KeyDown "ArrowDown")
                     (after (handle (Input "zzz") combo_loaded))))
         = TypeError s').
Proof.
  refine (proj2 (CE_throws_only_on_empty_list states
                   (after (handle (KeyDown "ArrowDown")
                             (after (handle (Input "zzz") combo_loaded))))
                   (KeyDown "Enter") _ I) _).
  - apply reaches_step; [|exact I|exact I].
    apply (reaches_step fixedOptions (componentDidLoad states)
             (componentDidLoad states) (Input "zzz")); [|exact I|exact I].
    apply reaches_here.
  - repeat split; reflexivity.
Defined.

(** X5: the mouse-down on an option makes [combo-eleven] ignore exactly the
    next blur: clicking an option (mouse-down, blur of the input, click)
    ends as the click alone does, while a blur that no mouse-down precedes
    closes the menu, without moving the focus, emitting an event or
    touching the value. *)
Theorem CE_mousedown_shields_click :
  (∀ s index,
     run [OptionMouseDown; InputBlur; OptionClick index] s
     = onOptionClick index (set_ignoreBlur false s))
  ∧ (∀ s, run [OptionMouseDown; InputBlur; InputBlur] s
          = Ok (updateMenuState false false (set_ignoreBlur false s)))
  ∧ (∀ s, ignoreBlur s = false →
          open (onInputBlur s) = false
          ∧ trace (onInputBlur s) = trace s
          ∧ value (onInputBlur s) = value s
          ∧ filteredOptions (onInputBlur s) = filteredOptions s
          ∧ activeIndex (onInputBlur s) = activeIndex s).
Proof.
  split; [|split].
  - intros s index. simpl. unfold onOptionClick, selectOption. simpl.
    by destruct (array_get _ _).
  - done.
  - intros s Hb. unfold onInputBlur. by rewrite Hb.
Qed.

Lemma CE_mousedown_shields_click_witness :
  open (onInputBlur combo_typed_a) = false
  ∧ trace (onInputBlur combo_typed_a) = []
  ∧ value (onInputBlur combo_typed_a) = "a".
Proof.
  destruct (proj2 (proj2 CE_mousedown_shields_click) combo_typed_a eq_refl)
    as (Hopen & Htrace & Hvalue & _).
  repeat split; assumption.
Defined.

Lemma CE_step_selected (e : Event) (s : State) :
  (selectedIndex s = None
   ∨ selectedIndex s = Some 0%Z
     ∧ ∃ o, lastSelect (trace s) = Some o ∧ value s = name o) →
  selectedIndex (after (handle e s)) = None
  ∨ selectedIndex (after (handle e s)) = Some 0%Z
    ∧ ∃ o, lastSelect (trace (after (handle e s))) = Some o
           ∧ value (after (handle e s)) = name o.
Proof.
  intros Hinv. destruct e as [| |v|key|index| |newValue]; simpl.
  - unfold onInputBlur. by destruct (ignoreBlur s).
  - by rewrite lastSelect_snoc.
  - unfold onInput. simpl.
    destruct (decide (value s ≠ v)); simpl; destruct (negb _); simpl; auto.
  - unfold onInputKeyDown, selectOption.
    destruct (getActionFromKey key (open s)); simpl;
      rewrite ?lastSelect_snoc; try done.
    destruct (array_get _ _) as [selected|]; simpl;
      rewrite ?lastSelect_snoc; [|done].
    right. split; [done|]. by exists selected.
  - unfold onOptionClick, selectOption. simpl.
    destruct (array_get _ _) as [selected|]; simpl;
      rewrite ?lastSelect_snoc; [|done].
    right. split; [done|]. by exists selected.
  - done.
  - done.
Qed.

(** X6: [combo-eleven] marks an option as selected (selected index 0, the
    only value other than null it ever takes) only while the input value is
    exactly the name of the option carried by the most recent select
    event. *)
Theorem CE_selected_matches_value (opts : list SelectOption) (s : State) :
  reaches anyEvent (componentDidLoad opts) s →
  selectedIndex s = None
  ∨ selectedIndex s = Some 0%Z
    ∧ ∃ o, lastSelect (trace s) = Some o ∧ value s = name o.
Proof.
  induction 1 as [|s e _ IH _ _]; [by left|]. by apply CE_step_selected.
Qed.

Lemma CE_selected_matches_value_witness :
  selectedIndex (after (handle (OptionClick 1) combo_typed_a)) = None
  ∨ selectedIndex (after (handle (OptionClick 1) combo_typed_a)) = Some 0%Z
    ∧ ∃ o, lastSelect (trace (after (handle (OptionClick 1) combo_typed_a)))
           = Some o
           ∧ value (after (handle (OptionClick 1) combo_typed_a)) = name o.
Proof.
  apply (CE_selected_matches_value states).
  apply reaches_step; [|exact I|by eexists].
  apply (reaches_step anyEvent (componentDidLoad states)
           (componentDidLoad states) (Input "a")); [|exact I|exact I].
  apply reaches_here.
Defined.

Lemma toLowerCase_app (a b : string) :
  toLowerCase (a +:+ b) = toLowerCase a +:+ toLowerCase b.
Proof. induction a as [|c a IH]; simpl; [done|]. by rewrite IH. Qed.

Lemma string_app_nil_r (a : string) : a +:+ EmptyString = a.
Proof.
  induction a as [|c a IH]; [done|]. exact (f_equal (String c) IH).
Qed.

Lemma string_app_assoc (a b c : string) : (a +:+ b) +:+ c = a +:+ (b +:+ c).
Proof.
  induction a as [|x a IH]; [done|]. exact (f_equal (String x) IH).
Qed.

Lemma ci_contains_refl (label : string) : ci_contains label label.
Proof.
  exists EmptyString, EmptyString.
  change (toLowerCase label = toLowerCase label +:+ EmptyString).
  by rewrite string_app_nil_r.
Qed.

Lemma array_get_elem_of {A} (arr : list A) (index : Z) (x : A) :
  array_get arr index = Some x → x ∈ arr.
Proof.
  unfold array_get. destruct (_ <? _)%Z; [done|].
  intros Hget. apply list_elem_of_lookup. by eexists.
Qed.

(** X7: committing an option of [combo-eleven] never filters it out: after
    the selection the filtered list is the filter of the options by the
    committed name, it still contains the committed option, and every option
    it contains has a label that contains the committed name. *)
Theorem CE_commit_keeps_option (opts : list SelectOption) (s : State)
    (index : Z) (o : SelectOption) :
  reaches anyEvent (componentDidLoad opts) s →
  array_get (filteredOptions s) index = Some o →
  ∃ s', selectOption index s = Ok s'
        ∧ o ∈ filteredOptions s'
        ∧ (∀ o', o' ∈ filteredOptions s' →
                 o' ∈ options s ∧ ci_contains (name o') (name o)).
Proof.
  intros Hreach Hget.
  destruct (CE_selectOption index s o Hget)
    as (s' & Hrun & _ & _ & _ & _ & Hf & _).
  exists s'. split; [done|]. rewrite Hf.
  apply CE_reach_filtered in Hreach.
  apply array_get_elem_of in Hget. rewrite Hreach in Hget.
  apply filterOptions_elem in Hget as [Hin _].
  split.
  - apply filterOptions_elem. split; [done | apply ci_contains_refl].
  - intros o'. apply filterOptions_elem.
Qed.

Lemma CE_commit_keeps_option_witness :
  ∃ s', selectOption 1 combo_typed_a = Ok s'
        ∧ mkOption "Arizona" "AZ" ∈ filteredOptions s'
        ∧ (∀ o', o' ∈ filteredOptions s' →
                 o' ∈ options combo_typed_a ∧ ci_contains (name o') "Arizona").
Proof.
  apply (CE_commit_keeps_option states combo_typed_a 1 (mkOption "Arizona" "AZ")).
  - apply (reaches_step anyEvent (componentDidLoad states)
             (componentDidLoad states) (Input "a")); [|exact I|exact I].
    apply reaches_here.
  - reflexivity.
Defined.

Lemma CE_arrow_down_step (s : State) :
  open s = true →
  onInputKeyDown "ArrowDown" s
  = Ok (set_activeIndex
          (getUpdatedIndex (activeIndex s)
             (array_length (filteredOptions s) - 1) Next)
          (perform PreventDefault s)).
Proof. intros Hopen. unfold onInputKeyDown. by rewrite Hopen. Qed.

(** X8: holding ArrowDown in an open [combo-eleven] menu walks down the
    list and stops at the last option: after [k] presses from a valid active
    index the active index is [min (activeIndex + k) max]; the menu stays
    open, the list and the value are untouched, and each press prevents the
    default action of the key. *)
Theorem CE_arrow_down_repeated (k : nat) (s : State) :
  open s = true →
  (0 ≤ activeIndex s ≤ array_length (filteredOptions s) - 1)%Z →
  ∃ s', run (replicate k (KeyDown "ArrowDown")) s = Ok s'
        ∧ activeIndex s'
          = Z.min (activeIndex s + Z.of_nat k)
              (array_length (filteredOptions s) - 1)
        ∧ open s' = true
        ∧ filteredOptions s' = filteredOptions s
        ∧ value s' = value s
        ∧ selectedIndex s' = selectedIndex s
        ∧ trace s' = trace s ++ replicate k PreventDefault.
Proof.
  revert s. induction k as [|k IH]; intros s Hopen Hrange.
  - exists s. simpl. rewrite app_nil_r. repeat split; try done. lia.
  - simpl. rewrite (CE_arrow_down_step s Hopen). simpl.
    set (s1 := set_activeIndex _ _).
    destruct (IH s1) as (s' & Hrun & Ha & Ho & Hf & Hv & Hs & Ht).
    + done.
    + subst s1. simpl. unfold getUpdatedIndex.
      destruct (Z.ltb_spec (array_length (filteredOptions s) - 1) 0); lia.
    + exists s'. split; [done|]. subst s1. simpl in *.
      rewrite Ha, Ht, <- app_assoc.
      repeat split; try done.
      unfold getUpdatedIndex.
      destruct (Z.ltb_spec (array_length (filteredOptions s) - 1) 0); lia.
Qed.

Lemma CE_arrow_down_repeated_witness :
  ∃ s', run (replicate 5 (KeyDown "ArrowDown")) combo_typed_a = Ok s'
        ∧ activeIndex s' = 2%Z
        ∧ open s' = true.
Proof.
  destruct (CE_arrow_down_repeated 5 combo_typed_a eq_refl)
    as (s' & Hrun & Ha & Ho & _).
  - split; discriminate.
  - exists s'. repeat split; assumption.
Defined.

End ComboElevenReach.

(** ** Reachable states of [sui-combobox] *)

Section SuiComboboxReach.
Import Utils SuiCombobox.

Lemma SC_selectOption_fields (index : Z) (s : State) :
  match array_get (filteredOptions s) index with
  | Some selected =>
      ∃ s', selectOption index s = Ok s'
            ∧ filter s' = filter s
            ∧ options s' = options s
            ∧ activeIndex s' = 0%Z
            ∧ filteredOptions s'
              = (if filter s then filterOptions (options s) (name selected)
                 else filteredOptions s)
            ∧ open s' = open s
            ∧ value s' = name selected
            ∧ ignoreBlur s' = ignoreBlur s
            ∧ selectedValue s' = name selected
            ∧ trace s' = trace s ++ [EmitSelect selected]
  | None => selectOption index s = TypeError s
  end.
Proof.
  unfold selectOption. destruct (array_get _ _) as [selected|]; [|done].
  eexists; split; [done|]. simpl.
  destruct (filter s) eqn:Hf; simpl; rewrite ?Hf; done.
Qed.

Lemma SC_onInput_throws (v : string) (s s' : State) :
  onInput v s = TypeError s' →
  s' = s ∧ filter s = false ∧ filterOptions (options s) v ≠ []
  ∧ array_get (options s) (activeIndex s) = None.
Proof.
  unfold onInput.
  destruct (if filter s then _ else _) as [s1|s1] eqn:E1; simpl; [done|].
  intros [= <-]. destruct (filter s); [done|].
  destruct (filterCurrentOption _ s) as [cur|s2] eqn:E2; simpl in E1.
  - destruct (filterOptions (options s) v), cur; done.
  - injection E1 as <-. unfold filterCurrentOption in E2.
    destruct (filterOptions (options s) v); [done|].
    destruct (array_get _ _); [done|]. by injection E2 as <-.
Qed.

Lemma SC_onInput_fields (v : string) (s s' : State) :
  onInput v s = Ok s' →
  filter s' = filter s
  ∧ options s' = options s
  ∧ filteredOptions s'
    = (if filter s then filterOptions (options s) v else filteredOptions s)
  ∧ value s' = v
  ∧ ignoreBlur s' = ignoreBlur s
  ∧ selectedValue s' = selectedValue s
  ∧ trace s' = trace s.
Proof.
  unfold onInput. destruct (filter s) eqn:Hf.
  - simpl. intros [= <-].
    destruct (decide (value s ≠ v)) as [Hv|Hv]; simpl;
      [|apply dec_stable in Hv]; destruct (negb _); simpl; by rewrite ?Hf.
  - destruct (filterCurrentOption _ s) as [cur|]; [|done].
    assert (∀ s1 : State,
              filter s1 = filter s → options s1 = options s →
              filteredOptions s1 = filteredOptions s →
              ignoreBlur s1 = ignoreBlur s →
              selectedValue s1 = selectedValue s → trace s1 = trace s →
              Ok s1 ≫= (λ s2 : State,
                 let s3 := if decide (value s2 ≠ v) then set_value v s2
                           else s2 in
                 let menuState := (0 <? array_length (filteredOptions s3))%Z in
                 Ok (if negb (eqb (open s3) menuState)
                     then updateMenuState menuState false s3 else s3))
              = @Ok State State s' →
              filter s' = false ∧ options s' = options s
              ∧ filteredOptions s' = filteredOptions s ∧ value s' = v
              ∧ ignoreBlur s' = ignoreBlur s
              ∧ selectedValue s' = selectedValue s ∧ trace s' = trace s)
      as Hcont.
    { intros s1 H1 H2 H3 H4 H5 H6. simpl. intros [= <-].
      destruct (decide (value s1 ≠ v)) as [Hv|Hv]; simpl;
        [|apply dec_stable in Hv]; destruct (negb _); simpl;
        rewrite ?H1, ?Hf; done. }
    simpl. destruct (filterOptions (options s) v) as [|m0 ms];
      [by apply Hcont|].
    destruct cur; by apply Hcont.
Qed.

Lemma SC_onInput_finish (v : string) (s1 s' : State) :
  Ok s1 ≫= (λ s2 : State,
     let s3 := if decide (value s2 ≠ v) then set_value v s2 else s2 in
     let menuState := (0 <? array_length (filteredOptions s3))%Z in
     Ok (if negb (eqb (open s3) menuState)
         then updateMenuState menuState false s3 else s3))
  = @Ok State State s' →
  activeIndex s' = activeIndex s1 ∧ filteredOptions s' = filteredOptions s1.
Proof.
  simpl. intros [= <-].
  destruct (decide (value s1 ≠ v)); simpl; destruct (negb _); done.
Qed.

Lemma indexOf_elem_of {A} `{EqDecision A} (arr : list A) (x : A) :
  x ∈ arr →
  ∃ i, indexOf arr x = Z.of_nat i ∧ arr !! i = Some x
       ∧ ∀ j, (j < i)%nat → arr !! j ≠ Some x.
Proof.
  intros Hin. unfold indexOf.
  destruct (list_find (λ y, y = x) arr) as [[i y]|] eqn:Hfind.
  - apply list_find_Some in Hfind as (Hi & -> & Hbefore).
    exists i. split; [done|split; [done|]].
    intros j Hj Hlook. by apply (Hbefore j x).
  - apply list_find_None in Hfind. rewrite Forall_forall in Hfind.
    by destruct (Hfind x Hin).
Qed.

Lemma filterOptions_elem_options (opts : list SelectOption) (q : string)
    (o : SelectOption) :
  o ∈ filterOptions opts q → o ∈ opts.
Proof. intros Hin. by apply filterOptions_elem in Hin as [? _]. Qed.

(** X9: typing in a [sui-combobox] that does not filter moves the active
    index to the first option that matches the text, unless the active
    option's name is already among the matches or nothing matches; the
    list shown and the options are untouched. *)
Theorem SC_typing_jumps_to_first_match (v : string) (s : State)
    (current : SelectOption) :
  filter s = false →
  array_get (options s) (activeIndex s) = Some current →
  ∃ s', onInput v s = Ok s'
        ∧ filteredOptions s' = filteredOptions s
        ∧ options s' = options s
        ∧ value s' = v
        ∧ match filterOptions (options s) v with
          | [] => activeIndex s' = activeIndex s
          | m0 :: ms =>
              ((∃ m, m ∈ m0 :: ms ∧ name m = name current) →
               activeIndex s' = activeIndex s)
              ∧ ((∀ m, m ∈ m0 :: ms → name m ≠ name current) →
                 array_get (options s) (activeIndex s') = Some m0
                 ∧ ∀ j, (0 ≤ j < activeIndex s')%Z →
                        array_get (options s) j ≠ Some m0)
          end.
Proof.
  intros Hf Hcur.
  destruct (onInput v s) as [s'|s'] eqn:Hrun.
  2: { apply SC_onInput_throws in Hrun as (_ & _ & _ & Hnone). congruence. }
  exists s'. split; [done|].
  destruct (SC_onInput_fields v s s' Hrun) as (_ & Ho & Hfo & Hv & _).
  rewrite Hf in Hfo. do 3 (split; [done|]).
  revert Hrun. unfold onInput, filterCurrentOption. rewrite Hf, Hcur.
  destruct (filterOptions (options s) v) as [|m0 ms] eqn:Hm.
  - intros Hrun. by apply SC_onInput_finish in Hrun as [-> _].
  - destruct (List.filter _ (m0 :: ms)) as [|c cs] eqn:Hcs.
    + intros Hrun. apply SC_onInput_finish in Hrun as [-> _]. simpl.
      split.
      * intros (m & Hin & Hname). exfalso.
        assert (m ∈ List.filter
                      (λ o, bool_decide (name o = name current)) (m0 :: ms))
          as Hmem.
        { apply list_elem_of_In, filter_In. split; [by apply list_elem_of_In|].
          by apply bool_decide_eq_true_2. }
        rewrite Hcs in Hmem. by apply not_elem_of_nil in Hmem.
      * intros _.
        assert (m0 ∈ options s) as Hin.
        { apply (filterOptions_elem_options _ v). rewrite Hm. left. }
        destruct (indexOf_elem_of (options s) m0 Hin) as (i & -> & Hi & Hleast).
        unfold array_get. split.
        -- destruct (Z.ltb_spec (Z.of_nat i) 0); [lia|]. by rewrite Nat2Z.id.
        -- intros j Hj. destruct (Z.ltb_spec j 0); [lia|].
           apply Hleast. lia.
    + intros Hrun. apply SC_onInput_finish in Hrun as [-> _].
      split; [done|]. intros Hnone. exfalso.
      assert (c ∈ List.filter
                    (λ o, bool_decide (name o = name current)) (m0 :: ms))
        as Hmem by (rewrite Hcs; left).
      apply list_elem_of_In, filter_In in Hmem as [Hin Hname].
      apply bool_decide_eq_true_1 in Hname.
      by apply (Hnone c); [apply list_elem_of_In|].
Qed.

Lemma SC_after_select (index : Z) (s : State) (callFocus : bool) :
  match array_get (filteredOptions s) index with
  | Some selected =>
      ∃ s', selectOption index s = Ok s'
            ∧ after (selectOption index s
                     ≫= λ s1, Ok (updateMenuState false callFocus s1))
              = updateMenuState false callFocus s'
            ∧ filter s' = filter s
            ∧ options s' = options s
            ∧ activeIndex s' = 0%Z
            ∧ filteredOptions s'
              = (if filter s then filterOptions (options s) (name selected)
                 else filteredOptions s)
            ∧ selectedValue s' = name selected
            ∧ trace s' = trace s ++ [EmitSelect selected]
  | None =>
      after (selectOption index s
             ≫= λ s1, Ok (updateMenuState false callFocus s1)) = s
  end.
Proof.
  pose proof (SC_selectOption_fields index s) as Hsel.
  destruct (array_get _ _) as [selected|].
  - destruct Hsel as (s' & Hrun & Hf & Ho & Ha & Hfo & _ & _ & _ & Hsv & Ht).
    exists s'. rewrite Hrun. done.
  - by rewrite Hsel.
Qed.


Lemma SC_step_selectedValue (e : Event) (s : State) :
  selectedValue s = from_option name EmptyString (lastSelect (trace s)) →
  selectedValue (after (handle e s))
  = from_option name EmptyString (lastSelect (trace (after (handle e s)))).
Proof.
  intros Hinv. destruct e as [| |v|key|index| |newValue]; simpl.
  - unfold onInputBlur. destruct (ignoreBlur s); [done|].
    destruct (open s); [|done].
    pose proof (SC_after_select (activeIndex s) s false) as Hsel.
    destruct (array_get _ _) as [selected|].
    + destruct Hsel as (s' & _ & -> & _ & _ & _ & _ & Hsv & Ht).
      simpl. by rewrite Hsv, Ht, lastSelect_snoc.
    + by rewrite Hsel.
  - by rewrite lastSelect_snoc.
  - destruct (onInput v s) as [s'|s'] eqn:Hrun; simpl.
    + destruct (SC_onInput_fields v s s' Hrun) as (_ & _ & _ & _ & _ & -> & ->).
      done.
    + by apply SC_onInput_throws in Hrun as (-> & _).
  - unfold onInputKeyDown.
    destruct (getActionFromKey key (open s)); simpl;
      rewrite ?lastSelect_snoc; try done.
    pose proof (SC_after_select (activeIndex s) (perform PreventDefault s) true)
      as Hsel.
    simpl in Hsel. destruct (array_get _ _) as [selected|].
    + destruct Hsel as (s' & _ & -> & _ & _ & _ & _ & Hsv & Ht).
      simpl. by rewrite Hsv, !lastSelect_snoc, Ht, lastSelect_snoc.
    + rewrite Hsel. simpl. by rewrite lastSelect_snoc.
  - unfold onOptionClick.
    pose proof (SC_after_select index (onOptionChange index s) true) as Hsel.
    simpl in Hsel. simpl. destruct (array_get _ _) as [selected|].
    + destruct Hsel as (s' & _ & -> & _ & _ & _ & _ & Hsv & Ht).
      simpl. by rewrite Hsv, !lastSelect_snoc, Ht, lastSelect_snoc.
    + by rewrite Hsel.
  - done.
  - unfold watchOptions. simpl. by destruct (filter s).
Qed.

(** X10: the last selected value [sui-combobox] keeps is always the name of
    the option carried by its most recent select event (the empty string
    before any), so Escape with the menu open puts exactly that name back
    into the input. *)
Theorem SC_selectedValue_is_last_select (filter0 : bool)
    (opts : list SelectOption) (value0 : option string) (s : State) :
  reaches anyEvent (componentDidLoad filter0 opts value0) s →
  selectedValue s = from_option name EmptyString (lastSelect (trace s))
  ∧ (open s = true →
     value (after (handle (KeyDown "Escape") s))
     = from_option name EmptyString (lastSelect (trace s))).
Proof.
  intros Hreach.
  assert (selectedValue s = from_option name EmptyString (lastSelect (trace s)))
    as Hinv.
  { induction Hreach as [|s e _ IH _ _]; [done|].
    by apply SC_step_selectedValue. }
  split; [done|]. intros Hopen. simpl. unfold onInputKeyDown.
  rewrite Hopen. simpl. done.
Qed.

Lemma SC_selectedValue_is_last_select_witness :
  selectedValue sui_typed_al = "Texas"
  ∧ value (after (handle (KeyDown "Escape") sui_typed_al)) = "Texas".
Proof.
  assert (reaches anyEvent (componentDidLoad true states None) sui_typed_al)
    as Hreach.
  { apply (reaches_step anyEvent (componentDidLoad true states None)
             (after (handle (OptionClick 2) sui_loaded)) (Input "Al"));
      [|exact I|exact I].
    apply (reaches_step anyEvent (componentDidLoad true states None)
             (componentDidLoad true states None) (OptionClick 2));
      [|exact I|by eexists].
    apply reaches_here. }
  destruct (SC_selectedValue_is_last_select true states None sui_typed_al Hreach)
    as [Hsel Hesc].
  split; [exact Hsel | exact (Hesc eq_refl)].
Defined.













(** X14: leaving the input of [sui-combobox] while the menu is open commits
    the active option: the value and the last selected value become its
    name, one select event carrying it is emitted, and the menu closes
    without a focus call; leaving it while the menu is closed changes
    nothing. *)
Theorem SC_blur_commits_active (s : State) :
  ignoreBlur s = false →
  (∀ o, open s = true →
        array_get (filteredOptions s) (activeIndex s) = Some o →
        ∃ s', onInputBlur s = Ok s'
              ∧ value s' = name o
              ∧ selectedValue s' = name o
              ∧ open s' = false
              ∧ activeIndex s' = 0%Z
              ∧ trace s' = trace s ++ [EmitSelect o])
  ∧ (open s = false → onInputBlur s = Ok s).
Proof.
  intros Hib. unfold onInputBlur. rewrite Hib. split.
  - intros o Hopen Hget. rewrite Hopen.
    pose proof (SC_selectOption_fields (activeIndex s) s) as Hsel.
    rewrite Hget in Hsel.
    destruct Hsel as (s' & -> & _ & _ & Ha & _ & _ & Hv & _ & Hsv & Ht).
    eexists; split; [done|]. done.
  - by intros ->.
Qed.

Lemma SC_blur_commits_active_witness :
  ∃ s', onInputBlur sui_typed_al = Ok s'
        ∧ value s' = "Alaska"
        ∧ selectedValue s' = "Alaska"
        ∧ open s' = false.
Proof.
  destruct (proj1 (SC_blur_commits_active sui_typed_al eq_refl)
              (mkOption "Alaska" "AK") eq_refl eq_refl)
    as (s' & Hrun & Hv & Hsv & Hopen & _).
  exists s'. repeat split; assumption.
Defined.

(** X15: the mouse-down on an option keeps the blur that precedes the click
    from committing the active option of [sui-combobox]: mouse-down, blur
    and click on a rendered option commit the clicked option and emit one
    select event, for it. *)
Theorem SC_mousedown_shields_click (s : State) (index : Z) (o : SelectOption) :
  array_get (filteredOptions s) index = Some o →
  run [OptionMouseDown; InputBlur; OptionClick index] s
  = onOptionClick index (set_ignoreBlur false s)
  ∧ ∃ s', run [OptionMouseDown; InputBlur; OptionClick index] s = Ok s'
          ∧ value s' = name o
          ∧ selectedValue s' = name o
          ∧ open s' = false
          ∧ ignoreBlur s' = false
          ∧ trace s' = trace s ++ [EmitSelect o; Focus].
Proof.
  intros Hget.
  assert (run [OptionMouseDown; InputBlur; OptionClick index] s
          = onOptionClick index (set_ignoreBlur false s)) as Hrun.
  { simpl. by destruct (onOptionClick _ _). }
  split; [done|]. rewrite Hrun.
  destruct (SC_click_selects (set_ignoreBlur false s) index o Hget)
    as (s' & Hclick & Hv & Hsv & Hopen & Ht).
  exists s'. split; [done|]. repeat split; try done.
  revert Hclick. unfold onOptionClick, selectOption. simpl. rewrite Hget.
  simpl. intros [= <-]. by destruct (filter s).
Qed.

Lemma SC_mousedown_shields_click_witness :
  ∃ s', run [OptionMouseDown; InputBlur; OptionClick 0] sui_typed_al = Ok s'
        ∧ value s' = "Alaska"
        ∧ open s' = false.
Proof.
  destruct (proj2 (SC_mousedown_shields_click sui_typed_al 0
                     (mkOption "Alaska" "AK") eq_refl))
    as (s' & Hrun & Hv & _ & Hopen & _).
  exists s'. repeat split; assumption.
Defined.

End SuiComboboxReach.

Section SuiComboboxNavigation.
Import Utils SuiCombobox.

Lemma SC_typing_jumps_to_first_match_witness :
  ∃ s', onInput "t" (componentDidLoad false states None) = Ok s'
        ∧ filteredOptions s' = states
        ∧ array_get (options (componentDidLoad false states None))
            (activeIndex s') = Some (mkOption "Texas" "TX").
Proof.
  destruct (SC_typing_jumps_to_first_match "t"
              (componentDidLoad false states None)
              (mkOption "Alaska" "AK") eq_refl eq_refl)
    as (s' & Hrun & Hfo & _ & _ & Hactive).
  exists s'. split; [exact Hrun|]. split; [exact Hfo|].
  apply (proj2 Hactive). intros m Hm.
  apply list_elem_of_In in Hm. simpl in Hm.
  destruct Hm as [<-|[]]. discriminate.
Defined.

Lemma SC_nav_step (key : string) (action : MenuActions) (s : State) :
  getActionFromKey key (open s) = action →
  action ∈ [Next; Last; First; Previous] →
  onInputKeyDown key s
  = Ok (set_activeIndex
          (getUpdatedIndex (activeIndex s)
             (array_length (filteredOptions s) - 1) action)
          (perform PreventDefault s)).
Proof.
  intros Ha Hin. unfold onInputKeyDown. rewrite Ha.
  apply list_elem_of_In in Hin. simpl in Hin.
  by destruct Hin as [<-|[<-|[<-|[<-|[]]]]].
Qed.

(** X16: keyboard navigation in an open [sui-combobox] menu with a valid
    active index: End goes to the last option and Home to the first;
    ArrowDown followed by ArrowUp comes back to the same option, except on
    the last option, where ArrowDown stays and ArrowUp then moves one up;
    none of them closes the menu or changes the list. *)
Theorem SC_navigation (s : State) :
  open s = true →
  (0 ≤ activeIndex s ≤ array_length (filteredOptions s) - 1)%Z →
  (∃ s', handle (KeyDown "End") s = Ok s'
         ∧ activeIndex s' = (array_length (filteredOptions s) - 1)%Z
         ∧ open s' = true ∧ filteredOptions s' = filteredOptions s)
  ∧ (∃ s', handle (KeyDown "Home") s = Ok s'
           ∧ activeIndex s' = 0%Z
           ∧ open s' = true ∧ filteredOptions s' = filteredOptions s)
  ∧ (∃ s', run [KeyDown "ArrowDown"; KeyDown "ArrowUp"] s = Ok s'
           ∧ activeIndex s'
             = (if decide (activeIndex s
                           = array_length (filteredOptions s) - 1)%Z
                then Z.max 0 (activeIndex s - 1)
                else activeIndex s)
           ∧ open s' = true ∧ filteredOptions s' = filteredOptions s
           ∧ value s' = value s).
Proof.
  intros Hopen Hrange.
  assert ((array_length (filteredOptions s) - 1 <? 0)%Z = false) as Hmax
    by (apply Z.ltb_ge; lia).
  split; [|split].
  - simpl. rewrite (SC_nav_step "End" Last s).
    + eexists; split; [done|]. simpl. unfold getUpdatedIndex.
      by rewrite Hmax.
    + by rewrite Hopen.
    + apply list_elem_of_In. simpl. tauto.
  - simpl. rewrite (SC_nav_step "Home" First s).
    + eexists; split; [done|]. simpl. unfold getUpdatedIndex.
      by rewrite Hmax.
    + by rewrite Hopen.
    + apply list_elem_of_In. simpl. tauto.
  - simpl. rewrite (SC_nav_step "ArrowDown" Next s).
    2: by rewrite Hopen.
    2: apply list_elem_of_In; simpl; tauto.
    simpl. rewrite (SC_nav_step "ArrowUp" Previous).
    2: simpl; by rewrite Hopen.
    2: apply list_elem_of_In; simpl; tauto.
    simpl. eexists; split; [done|]. simpl.
    split; [|done]. unfold getUpdatedIndex. rewrite Hmax.
    case_decide; lia.
Qed.

Lemma SC_navigation_witness :
  ∃ s', run [KeyDown "ArrowDown"; KeyDown "ArrowUp"]
          (updateMenuState true true sui_loaded) = Ok s'
        ∧ activeIndex s' = 0%Z
        ∧ open s' = true.
Proof.
  destruct (SC_navigation (updateMenuState true true sui_loaded) eq_refl)
    as (_ & _ & s' & Hrun & Ha & Ho & _).
  - split; discriminate.
  - exists s'. split; [exact Hrun|]. split; [exact Ha | exact Ho].
Defined.

End SuiComboboxNavigation.

(** ** Filtering while typing *)

Section Narrowing.
Import Utils.

Lemma ci_contains_app_l (label q r : string) :
  ci_contains label (q +:+ r) → ci_contains label q.
Proof.
  intros (pre & post & Heq). exists pre, (toLowerCase r +:+ post).
  by rewrite Heq, toLowerCase_app, string_app_assoc.
Qed.

Lemma List_filter_filter {A} (f g : A → bool) (l : list A) :
  (∀ x, f x = true → g x = true) →
  List.filter f (List.filter g l) = List.filter f l.
Proof.
  intros Himp. induction l as [|x l IH]; simpl; [done|].
  destruct (g x) eqn:Hg; simpl.
  - by rewrite IH.
  - destruct (f x) eqn:Hfx; [|done]. apply Himp in Hfx. congruence.
Qed.

(** The options that match a query extended by more text are among those
    that match the query, in the same order, and filtering the already
    filtered list by the extended query gives the same result as filtering
    all options. *)
Lemma filterOptions_narrows (opts : list SelectOption) (q r : string) :
  sublist (filterOptions opts (q +:+ r)) (filterOptions opts q)
  ∧ filterOptions (filterOptions opts q) (q +:+ r)
    = filterOptions opts (q +:+ r).
Proof.
  assert (filterOptions (filterOptions opts q) (q +:+ r)
          = filterOptions opts (q +:+ r)) as Heq.
  { unfold filterOptions. apply List_filter_filter. intros o Hm.
    apply filterOptions_match. apply filterOptions_match in Hm.
    by apply ci_contains_app_l in Hm. }
  split; [|done]. rewrite <- Heq. apply filter_sublist.
Qed.

(** X17: typing further characters into [combo-eleven] only narrows the
    list: after the text is extended, the filtered list is a subsequence of
    the one shown for the shorter text, and once nothing matches, the list
    stays empty and the menu closed however much more is typed. *)
Theorem CE_typing_narrows (s : ComboEleven.State) (q r : string) :
  sublist
    (ComboEleven.filteredOptions
       (ComboEleven.onInput (q +:+ r) (ComboEleven.onInput q s)))
    (ComboEleven.filteredOptions (ComboEleven.onInput q s))
  ∧ (ComboEleven.filteredOptions (ComboEleven.onInput q s) = [] →
     ComboEleven.filteredOptions
       (ComboEleven.onInput (q +:+ r) (ComboEleven.onInput q s)) = []
     ∧ ComboEleven.open
         (ComboEleven.onInput (q +:+ r) (ComboEleven.onInput q s)) = false).
Proof.
  destruct (CE_onInput_open q s) as (_ & Hf1 & Ho1 & _).
  destruct (CE_onInput_open (q +:+ r) (ComboEleven.onInput q s))
    as (Hopen & Hf2 & _).
  assert (sublist
            (ComboEleven.filteredOptions
               (ComboEleven.onInput (q +:+ r) (ComboEleven.onInput q s)))
            (ComboEleven.filteredOptions (ComboEleven.onInput q s))) as Hsub.
  { rewrite Hf2, Ho1, Hf1. apply filterOptions_narrows. }
  split; [done|]. intros Hnil. rewrite Hnil in Hsub.
  apply sublist_nil_r in Hsub. split; [done|].
  rewrite Hopen, Hsub. done.
Qed.

Lemma CE_typing_narrows_witness :
  ComboEleven.filteredOptions
    (ComboEleven.onInput ("az" +:+ "t") (ComboEleven.onInput "az" combo_loaded))
  = []
  ∧ ComboEleven.open
      (ComboEleven.onInput ("az" +:+ "t") (ComboEleven.onInput "az" combo_loaded))
    = false.
Proof.
  exact (proj2 (CE_typing_narrows combo_loaded "az" "t") eq_refl).
Defined.

End Narrowing.

(** ** The form page *)

Section FormPageFacts.
Import FormPage.

Lemma pop_snoc {A} (front : list A) (x : A) :
  pop (front ++ [x]) = (Some x, front).
Proof.
  induction front as [|y front IH]; [done|].
  change ((y :: front) ++ [x]) with (y :: (front ++ [x])).
  simpl. rewrite IH. by destruct front.
Qed.

Lemma includes_app_l (a b q : string) :
  includes a q = true → includes (a +:+ b) q = true.
Proof.
  rewrite !includes_spec. intros (pre & post & ->).
  exists pre, (post +:+ b). by rewrite !string_app_assoc.
Qed.

Lemma includes_app_r (a b q : string) :
  includes b q = true → includes (a +:+ b) q = true.
Proof.
  rewrite !includes_spec. intros (pre & post & ->).
  exists (a +:+ pre), post. by rewrite !string_app_assoc.
Qed.

Lemma includes_refl (q : string) : includes q q = true.
Proof.
  apply includes_spec. exists EmptyString, EmptyString.
  change (q = q +:+ EmptyString). by rewrite string_app_nil_r.
Qed.

Lemma concat_includes (sep : string) (fields : list string) (f : string) :
  f ∈ fields → includes (String.concat sep fields) f = true.
Proof.
  induction fields as [|x rest IH]; [by intros ?%not_elem_of_nil|].
  intros Hin. apply elem_of_cons in Hin as [->|Hin].
  - destruct rest; simpl; [apply includes_refl|].
    apply includes_app_l, includes_refl.
  - destruct rest as [|y rest]; [by apply not_elem_of_nil in Hin|].
    change (String.concat sep (x :: y :: rest))
      with (x +:+ sep +:+ String.concat sep (y :: rest)).
    by apply includes_app_r, includes_app_r, IH.
Qed.

(** X18: the error alert of the form page names every invalid field: with
    one field it reads "Please fix" followed by it, with several it lists
    all but the last separated by commas and adds "and" with the last; when
    the list of invalid fields is empty the text is "Please fix
    undefined". *)
Theorem errorMessage_names_fields :
  errorMessage [] = "Please fix undefined"
  ∧ (∀ f, errorMessage [f] = "Please fix " +:+ f)
  ∧ (∀ front f, front ≠ [] →
       errorMessage (front ++ [f])
       = "Please fix errors in " +:+ String.concat ", " front
         +:+ " and " +:+ f)
  ∧ (∀ fields f, f ∈ fields → includes (errorMessage fields) f = true).
Proof.
  assert (∀ front f, front ≠ [] →
            errorMessage (front ++ [f])
            = "Please fix errors in " +:+ String.concat ", " front
              +:+ " and " +:+ f) as Hmany.
  { intros front f Hne. unfold errorMessage. rewrite pop_snoc.
    by destruct front. }
  split; [done|split; [done|split; [done|]]].
  intros fields f Hin.
  destruct fields as [|x rest] using rev_ind; [by apply not_elem_of_nil in Hin|].
  clear IHrest. destruct (decide (rest = [])) as [->|Hne].
  - apply list_elem_of_In in Hin. simpl in Hin. destruct Hin as [<-|[]].
    apply includes_app_r, includes_refl.
  - rewrite Hmany by done. apply elem_of_app in Hin as [Hin|Hin].
    + apply includes_app_r, includes_app_l. by apply concat_includes.
    + apply list_elem_of_In in Hin. simpl in Hin. destruct Hin as [<-|[]].
      do 3 apply includes_app_r. apply includes_refl.
Qed.

Lemma errorMessage_names_fields_witness :
  errorMessage ["Name"; "City"; "Zip Code"]
  = "Please fix errors in Name, City and Zip Code"
  ∧ includes (errorMessage ["Name"; "City"; "Zip Code"]) "City" = true.
Proof.
  destruct errorMessage_names_fields as (_ & _ & Hmany & Hnames).
  split.
  - exact (Hmany ["Name"; "City"] "Zip Code" ltac:(discriminate)).
  - apply Hnames. apply list_elem_of_In. simpl. tauto.
Defined.

Lemma classList_add_spec (token : string) (tokens : list string) :
  NoDup tokens →
  NoDup (classList_add token tokens)
  ∧ ∀ t, t ∈ classList_add token tokens ↔ t = token ∨ t ∈ tokens.
Proof.
  intros Hnd. unfold classList_add. destruct (decide (token ∈ tokens)).
  - split; [done|]. intros t. split; [by right | by intros [->|?]].
  - split.
    + apply NoDup_app. split; [done|]. split; [|apply NoDup_singleton].
      intros t Ht ->%list_elem_of_singleton. done.
    + intros t. rewrite elem_of_app, list_elem_of_singleton. tauto.
Qed.

Lemma classList_remove_spec (token : string) (tokens : list string) :
  NoDup tokens →
  NoDup (classList_remove token tokens)
  ∧ ∀ t, t ∈ classList_remove token tokens ↔ t ≠ token ∧ t ∈ tokens.
Proof.
  intros Hnd. unfold classList_remove. split.
  - apply NoDup_ListNoDup. apply List.NoDup_filter. by apply NoDup_ListNoDup.
  - intros t. rewrite !list_elem_of_In, filter_In, negb_true_iff.
    rewrite bool_decide_eq_false. tauto.
Qed.

(** X19: the submit callback of the form page keeps the alert's class list
    free of duplicates; a valid submit empties the form content, removes
    the class "error" and adds "success"; an invalid one adds "error" and
    leaves the form content alone; either way every other class stays and
    the alert gets its text and the focus; submitting an invalid form
    again does not change the class list. *)
Theorem onSubmit_alert_classes (page : Page) (fields : list string) :
  NoDup (alertClasses page) →
  (NoDup (alertClasses (onSubmit true fields page))
   ∧ (∀ t, t ∈ alertClasses (onSubmit true fields page)
           ↔ t = "success" ∨ t ≠ "error" ∧ t ∈ alertClasses page)
   ∧ formContent (onSubmit true fields page) = EmptyString
   ∧ alertHTML (onSubmit true fields page) = "Success!"
   ∧ alertFocused (onSubmit true fields page) = true)
  ∧ (NoDup (alertClasses (onSubmit false fields page))
     ∧ (∀ t, t ∈ alertClasses (onSubmit false fields page)
             ↔ t = "error" ∨ t ∈ alertClasses page)
     ∧ formContent (onSubmit false fields page) = formContent page
     ∧ alertHTML (onSubmit false fields page) = errorMessage fields
     ∧ alertFocused (onSubmit false fields page) = true)
  ∧ (∀ fields', alertClasses (onSubmit false fields' (onSubmit false fields page))
                = alertClasses (onSubmit false fields page)).
Proof.
  intros Hnd. split; [|split].
  - simpl.
    destruct (classList_remove_spec "error" (alertClasses page) Hnd)
      as [Hnd1 Hin1].
    destruct (classList_add_spec "success" _ Hnd1) as [Hnd2 Hin2].
    split; [done|]. split; [|done].
    intros t. rewrite Hin2, Hin1. done.
  - simpl. destruct (classList_add_spec "error" _ Hnd) as [Hnd2 Hin2].
    done.
  - intros fields'. simpl. unfold classList_add at 1.
    destruct (decide _) as [|Hnot]; [done|]. destruct Hnot.
    apply (classList_add_spec "error" _ Hnd). by left.
Qed.

Lemma onSubmit_alert_classes_witness :
  alertClasses (onSubmit true []
                  (onSubmit false ["Name"] (mkPage "form" ["form-alert"]
                                              EmptyString false)))
  = ["form-alert"; "success"]
  ∧ ∀ t, t ∈ alertClasses (onSubmit false ["Name"]
                             (mkPage "form" ["form-alert"] EmptyString false))
         ↔ t = "error" ∨ t ∈ ["form-alert"].
Proof.
  split; [reflexivity|].
  refine (proj1 (proj2 (proj1 (proj2
            (onSubmit_alert_classes
               (mkPage "form" ["form-alert"] EmptyString false)
               ["Name"] _))))).
  apply NoDup_singleton.
Defined.

End FormPageFacts.

(** ** Loading [sui-combobox] *)

Section SuiComboboxLoad.
Import Utils SuiCombobox.

(** X20: a [sui-combobox] loaded without a value shows every option and
    puts the name of the first one, which is the active option, into the
    input (the empty string when there is no option); loaded with a value
    it keeps that value and, when filtering, shows the options that match
    it. *)
Theorem SC_load_shows_first_option (filter0 : bool) (opts : list SelectOption) :
  (filteredOptions (componentDidLoad filter0 opts None) = opts
   ∧ value (componentDidLoad filter0 opts None)
     = from_option name EmptyString
         (array_get (filteredOptions (componentDidLoad filter0 opts None))
            (activeIndex (componentDidLoad filter0 opts None))))
  ∧ (∀ v, value (componentDidLoad filter0 opts (Some v)) = v
          ∧ filteredOptions (componentDidLoad filter0 opts (Some v))
            = (if filter0 then filterOptions opts v else opts)).
Proof.
  assert (filterOptions opts EmptyString = opts) as Hall.
  { unfold filterOptions. apply filter_all_true. intros o. apply includes_empty. }
  split; [|done].
  unfold componentDidLoad. simpl. rewrite Hall.
  split; [by destruct filter0|].
  destruct filter0; simpl; by destruct opts.
Qed.

End SuiComboboxLoad.
